(** * EmojiPhysics: the simulation and body-lifecycle manager of SkeetMoji

    A shallow embedding of [src/src/EmojiPhysics.ts].  The class is a thin
    layer over Matter.js: every method mutates [this] and the Matter world.
    Methods are state-passing functions on the record [EmojiPhysics]; the
    Matter.js calls the class makes ([Bodies.circle], [World.add],
    [World.remove], [World.clear], [Composite.allBodies],
    [Body.applyForce]) are embedded next to them with the behaviour of
    Matter.js 0.19/0.20.

    Conventions.
    - JavaScript numbers are idealised: coordinates are rationals ([Q]),
      the swing angle is a real ([R]); rounding, NaN and signed zeros of
      IEEE doubles are outside the model.
    - Matter bodies are objects compared by identity.  The objects the
      class holds references to live in [heap], keyed by their Matter
      [id]; [world_bodies] and [_bigBall] hold references (ids).
    - [Math.random()] is an argument of the method that calls it.
    - The image load of [addSwingingBall] is asynchronous: the method
      leaves a pending image behind, and [img_onload] / [img_onerror]
      are events of their own. *)

From Stdlib Require Import QArith Qround Qreals Reals Lra Lia ZArith.
From Stdlib Require Lqa Zquot.
From stdpp Require Import gmap strings list.

Local Open Scope Z_scope.
Local Open Scope string_scope.
Local Open Scope list_scope.

(** ** Numbers *)

Definition Qgtb (a b : Q) : bool := negb (Qle_bool a b).
Definition Qltb (a b : Q) : bool := negb (Qle_bool b a).

(** [Math.round]: nearest integer, ties towards plus infinity. *)
Definition Math_round (x : Q) : Z := Qfloor (x + (1 # 2)).

(** ** Matter.js data *)

Record Vector := mkVector { vx : Q; vy : Q }.

(** The four obstacle layouts of [Init]. *)
Inductive Layout := Pegs | Slats | Paddlewheels | Paddles.

(** Which method of the class created a body.  This tag is not in the
    source: it is bookkeeping of the model, never read by the modelled
    code, and only used to say in theorems what a body "truly" is. *)
Inductive Maker :=
| ByInitBoundary
| ByLayout (l : Layout)
| BySwingingBall
| ByCreateEmojiBall.

Global Instance Layout_eq_dec : EqDecision Layout.
Proof. solve_decision. Defined.
Global Instance Maker_eq_dec : EqDecision Maker.
Proof. solve_decision. Defined.

(** One rigid part.  Geometry beyond the position (vertices, angle) is
    not modelled. *)
Record Part := mkPart {
  id : nat;
  label : string;
  isStatic : bool;
  position : Vector;
  circleRadius : Q;             (* 0 for a body that is not a circle *)
  force : Vector;
  torque : Q;
  texture : option string;      (* render.sprite.texture *)
  madeBy : Maker
}.

(** A body: [body.parts] is the body itself followed by the parts of a
    compound ([Body.setParts]); the parts of a compound belong to it
    alone. *)
Record Body := mkBody { core : Part; subparts : list Part }.

Definition parts (b : Body) : list Part := core b :: subparts b.

Record Constraint := mkConstraint {
  cid : nat;
  pointA : Vector;
  bodyB : nat;
  clength : Q;
  stiffness : Q
}.

(** The shared off-screen canvas of [createEmojiTexture]: its fixed
    setup and what is currently drawn on it. *)
Record Canvas := mkCanvas {
  cwidth : Q;
  cheight : Q;
  cfont : string;
  ctextAlign : string;
  ctextBaseline : string;
  drawn : list (string * Q * Q)   (* fillText calls since the last clearRect *)
}.

(** ** The object *)

Record EmojiPhysics := mkEmojiPhysics {
  heap : gmap nat Body;                 (* Matter body objects by id *)
  nextId : nat;                         (* Common._nextId *)
  world_bodies : list nat;              (* this._world.bodies *)
  world_constraints : list Constraint;  (* this._world.constraints *)
  RenderWidth : Q;
  RenderHeight : Q;
  RenderTop : Q;
  _emojiCount : Z;
  _bigBallId : nat;
  _bigBall : option nat;
  _emojiMap : gmap string string;
  _sharedCanvas : option Canvas;
  _swingDirection : Z;
  pendingImages : list Q;               (* constraintLength captured by each img.onload *)
  rasterized : list string;             (* trace of fillText calls *)
  console : list string                 (* trace of console.error calls *)
}.

Definition MAX_EMOJIS : Z := 1000.
Definition _bottomBorderHeight : Q := 20.
Definition _bottomBorderOffset : Q := 20.
Definition BIG_BALL_RADIUS : Q := 50.
Definition _swingForce : Q := 50.

(** ** Field updates ([this.f = v]) *)

Definition set_heap (v : gmap nat Body) (s : EmojiPhysics) : EmojiPhysics :=
  mkEmojiPhysics v (nextId s) (world_bodies s) (world_constraints s) (RenderWidth s) (RenderHeight s) (RenderTop s) (_emojiCount s) (_bigBallId s) (_bigBall s) (_emojiMap s) (_sharedCanvas s) (_swingDirection s) (pendingImages s) (rasterized s) (console s).
Definition set_nextId (v : nat) (s : EmojiPhysics) : EmojiPhysics :=
  mkEmojiPhysics (heap s) v (world_bodies s) (world_constraints s) (RenderWidth s) (RenderHeight s) (RenderTop s) (_emojiCount s) (_bigBallId s) (_bigBall s) (_emojiMap s) (_sharedCanvas s) (_swingDirection s) (pendingImages s) (rasterized s) (console s).
Definition set_world_bodies (v : list nat) (s : EmojiPhysics) : EmojiPhysics :=
  mkEmojiPhysics (heap s) (nextId s) v (world_constraints s) (RenderWidth s) (RenderHeight s) (RenderTop s) (_emojiCount s) (_bigBallId s) (_bigBall s) (_emojiMap s) (_sharedCanvas s) (_swingDirection s) (pendingImages s) (rasterized s) (console s).
Definition set_world_constraints (v : list Constraint) (s : EmojiPhysics) : EmojiPhysics :=
  mkEmojiPhysics (heap s) (nextId s) (world_bodies s) v (RenderWidth s) (RenderHeight s) (RenderTop s) (_emojiCount s) (_bigBallId s) (_bigBall s) (_emojiMap s) (_sharedCanvas s) (_swingDirection s) (pendingImages s) (rasterized s) (console s).
Definition set_RenderWidth (v : Q) (s : EmojiPhysics) : EmojiPhysics :=
  mkEmojiPhysics (heap s) (nextId s) (world_bodies s) (world_constraints s) v (RenderHeight s) (RenderTop s) (_emojiCount s) (_bigBallId s) (_bigBall s) (_emojiMap s) (_sharedCanvas s) (_swingDirection s) (pendingImages s) (rasterized s) (console s).
Definition set_RenderHeight (v : Q) (s : EmojiPhysics) : EmojiPhysics :=
  mkEmojiPhysics (heap s) (nextId s) (world_bodies s) (world_constraints s) (RenderWidth s) v (RenderTop s) (_emojiCount s) (_bigBallId s) (_bigBall s) (_emojiMap s) (_sharedCanvas s) (_swingDirection s) (pendingImages s) (rasterized s) (console s).
Definition set_RenderTop (v : Q) (s : EmojiPhysics) : EmojiPhysics :=
  mkEmojiPhysics (heap s) (nextId s) (world_bodies s) (world_constraints s) (RenderWidth s) (RenderHeight s) v (_emojiCount s) (_bigBallId s) (_bigBall s) (_emojiMap s) (_sharedCanvas s) (_swingDirection s) (pendingImages s) (rasterized s) (console s).
Definition set__emojiCount (v : Z) (s : EmojiPhysics) : EmojiPhysics :=
  mkEmojiPhysics (heap s) (nextId s) (world_bodies s) (world_constraints s) (RenderWidth s) (RenderHeight s) (RenderTop s) v (_bigBallId s) (_bigBall s) (_emojiMap s) (_sharedCanvas s) (_swingDirection s) (pendingImages s) (rasterized s) (console s).
Definition set__bigBallId (v : nat) (s : EmojiPhysics) : EmojiPhysics :=
  mkEmojiPhysics (heap s) (nextId s) (world_bodies s) (world_constraints s) (RenderWidth s) (RenderHeight s) (RenderTop s) (_emojiCount s) v (_bigBall s) (_emojiMap s) (_sharedCanvas s) (_swingDirection s) (pendingImages s) (rasterized s) (console s).
Definition set__bigBall (v : option nat) (s : EmojiPhysics) : EmojiPhysics :=
  mkEmojiPhysics (heap s) (nextId s) (world_bodies s) (world_constraints s) (RenderWidth s) (RenderHeight s) (RenderTop s) (_emojiCount s) (_bigBallId s) v (_emojiMap s) (_sharedCanvas s) (_swingDirection s) (pendingImages s) (rasterized s) (console s).
Definition set__emojiMap (v : gmap string string) (s : EmojiPhysics) : EmojiPhysics :=
  mkEmojiPhysics (heap s) (nextId s) (world_bodies s) (world_constraints s) (RenderWidth s) (RenderHeight s) (RenderTop s) (_emojiCount s) (_bigBallId s) (_bigBall s) v (_sharedCanvas s) (_swingDirection s) (pendingImages s) (rasterized s) (console s).
Definition set__sharedCanvas (v : option Canvas) (s : EmojiPhysics) : EmojiPhysics :=
  mkEmojiPhysics (heap s) (nextId s) (world_bodies s) (world_constraints s) (RenderWidth s) (RenderHeight s) (RenderTop s) (_emojiCount s) (_bigBallId s) (_bigBall s) (_emojiMap s) v (_swingDirection s) (pendingImages s) (rasterized s) (console s).
Definition set__swingDirection (v : Z) (s : EmojiPhysics) : EmojiPhysics :=
  mkEmojiPhysics (heap s) (nextId s) (world_bodies s) (world_constraints s) (RenderWidth s) (RenderHeight s) (RenderTop s) (_emojiCount s) (_bigBallId s) (_bigBall s) (_emojiMap s) (_sharedCanvas s) v (pendingImages s) (rasterized s) (console s).
Definition set_pendingImages (v : list Q) (s : EmojiPhysics) : EmojiPhysics :=
  mkEmojiPhysics (heap s) (nextId s) (world_bodies s) (world_constraints s) (RenderWidth s) (RenderHeight s) (RenderTop s) (_emojiCount s) (_bigBallId s) (_bigBall s) (_emojiMap s) (_sharedCanvas s) (_swingDirection s) v (rasterized s) (console s).
Definition set_rasterized (v : list string) (s : EmojiPhysics) : EmojiPhysics :=
  mkEmojiPhysics (heap s) (nextId s) (world_bodies s) (world_constraints s) (RenderWidth s) (RenderHeight s) (RenderTop s) (_emojiCount s) (_bigBallId s) (_bigBall s) (_emojiMap s) (_sharedCanvas s) (_swingDirection s) (pendingImages s) v (console s).
Definition set_console (v : list string) (s : EmojiPhysics) : EmojiPhysics :=
  mkEmojiPhysics (heap s) (nextId s) (world_bodies s) (world_constraints s) (RenderWidth s) (RenderHeight s) (RenderTop s) (_emojiCount s) (_bigBallId s) (_bigBall s) (_emojiMap s) (_sharedCanvas s) (_swingDirection s) (pendingImages s) (rasterized s) v.

(** ** Matter.js primitives *)

Definition zeroVector : Vector := mkVector 0 0.

(** [Bodies.circle(x, y, radius, options)]: its label is "Circle Body". *)
Definition circlePart (x y radius : Q) (static : bool) (tex : option string)
    (m : Maker) (i : nat) : Part :=
  mkPart i "Circle Body" static (mkVector x y) radius zeroVector 0 tex m.

(** [Bodies.rectangle(x, y, width, height, options)]: its label is
    "Rectangle Body"; width and height only shape the vertices. *)
Definition rectanglePart (x y _width _height : Q) (static : bool)
    (m : Maker) (i : nat) : Part :=
  mkPart i "Rectangle Body" static (mkVector x y) 0 zeroVector 0 None m.

Definition Bodies_circle (x y radius : Q) (static : bool) (tex : option string)
    (m : Maker) (i : nat) : Body :=
  mkBody (circlePart x y radius static tex m i) [].

Definition Bodies_rectangle (x y width height : Q) (static : bool)
    (m : Maker) (i : nat) : Body :=
  mkBody (rectanglePart x y width height static m i) [].

(** [Body.translate(body, {x: dx, y: 0})] on a body just created. *)
Definition Body_translate_x (dx : Q) (b : Body) : Body :=
  let p := core b in
  mkBody (mkPart (id p) (label p) (isStatic p)
            (mkVector (vx (position p) + dx) (vy (position p)))
            (circleRadius p) (force p) (torque p) (texture p) (madeBy p))
         (subparts b).

(** Creating a body draws its id from [Common.nextId()] and yields a new
    object. *)
Definition Body_create (mk : nat -> Body) (s : EmojiPhysics) : nat * EmojiPhysics :=
  let i := nextId s in
  (i, set_heap (<[i := mk i]> (heap s)) (set_nextId (S i) s)).

(** The bodies of a loop, created in order. *)
Fixpoint Body_create_all (mks : list (nat -> Body)) (s : EmojiPhysics)
    : list nat * EmojiPhysics :=
  match mks with
  | [] => ([], s)
  | mk :: rest =>
      let '(r, s1) := Body_create mk s in
      let '(rs, s2) := Body_create_all rest s1 in
      (r :: rs, s2)
  end.

(** [Constraint.create] also draws an id. *)
Definition Constraint_create (a : Vector) (b : nat) (len stiff : Q)
    (s : EmojiPhysics) : Constraint * EmojiPhysics :=
  (mkConstraint (nextId s) a b len stiff, set_nextId (S (nextId s)) s).

(** [World.add] ([Composite.add]): bodies and constraints are appended. *)
Definition World_add_bodies (rs : list nat) (s : EmojiPhysics) : EmojiPhysics :=
  set_world_bodies (world_bodies s ++ rs) s.

Definition World_add_constraint (c : Constraint) (s : EmojiPhysics) : EmojiPhysics :=
  set_world_constraints (world_constraints s ++ [c]) s.

Fixpoint remove_first (r : nat) (l : list nat) : list nat :=
  match l with
  | [] => []
  | x :: rest => if Nat.eqb x r then rest else x :: remove_first r rest
  end.

(** [World.remove(world, part)] ([Composite.removeBody], not deep): the
    object is looked up in [world.bodies] by identity and spliced out;
    when it is not an element (as for a part of a compound) nothing
    happens. *)
Definition World_remove (p : Part) (s : EmojiPhysics) : EmojiPhysics :=
  set_world_bodies (remove_first (id p) (world_bodies s)) s.

(** [World.clear(world, false)]: every body and constraint goes. *)
Definition World_clear (s : EmojiPhysics) : EmojiPhysics :=
  set_world_constraints [] (set_world_bodies [] s).

(** [Composite.allBodies(world)]: a copy of the list of bodies (the world
    has no child composites). *)
Definition allBodies (s : EmojiPhysics) : list Body :=
  omap (fun r => heap s !! r) (world_bodies s).

(** ** The obstacle layouts *)

Section Layouts.
Local Open Scope Q_scope.

(** The [pegs] array of [createPegs(radius, spacing)]: a quincunx of
    static circles, in the order the two loops create them. *)
Definition pegs (radius spacing : Q) (s : EmojiPhysics) : list (nat → Body) :=
  let rows := Math_round (RenderHeight s / 75) in
  let cols := Math_round (RenderHeight s / (3333 # 100)) in
  let startX := RenderWidth s / 2 - (inject_Z cols - 1) * spacing / 2 in
  let startY := (RenderHeight s - BIG_BALL_RADIUS * 2) / 2
                - (inject_Z rows - 1) * spacing / 2 in
  flat_map (fun row : nat =>
    flat_map (fun col : nat =>
      if (Nat.even row && Nat.even col) || (Nat.odd row && Nat.odd col)
      then [Bodies_circle (startX + inject_Z (Z.of_nat col) * spacing)
                          (startY + inject_Z (Z.of_nat row) * spacing)
                          radius true None (ByLayout Pegs)]
      else [])
    (seq 0 (Z.to_nat cols)))
  (seq 0 (Z.to_nat rows)).

Definition createPegs (radius spacing : Q) (s : EmojiPhysics) : EmojiPhysics :=
  let '(refs, s1) := Body_create_all (pegs radius spacing s) s in
  World_add_bodies refs s1.

(** The [slats] array of [createSlats()]: static bars, tilted and shifted
    left and right in turn.  [Body.rotate] turns a bar about its own
    position, which stays where it is. *)
Definition slats (s : EmojiPhysics) : list (nat → Body) :=
  let slatCount := Math_round (RenderHeight s / 150) in
  map (fun i : nat =>
    let rect := Bodies_rectangle (RenderWidth s / 2)
                  ((RenderHeight s - BIG_BALL_RADIUS * 2) / 2
                   - (inject_Z slatCount / 2 * 75)
                   + inject_Z (Z.of_nat i) * 75)
                  250 10 true (ByLayout Slats) in
    fun n => if Nat.even i then Body_translate_x (-120) (rect n)
             else Body_translate_x 120 (rect n))
  (seq 0 (Z.to_nat slatCount)).

Definition createSlats (s : EmojiPhysics) : EmojiPhysics :=
  let '(refs, s1) := Body_create_all (slats s) s in
  World_add_bodies refs s1.

(** [createPaddlewheel(x, y, radius, length)]: a central circle and four
    paddles, all non-static, made the parts of one compound [wheel]
    ([Body.create({parts: [circle, ...paddles]})], label "Body"), which is
    pinned at its centre.  Only the wheel is added to the world. *)
Definition createPaddlewheel (x y radius length : Q) (s : EmojiPhysics) : EmojiPhysics :=
  let n := nextId s in
  let circle := circlePart x y radius false None (ByLayout Paddlewheels) n in
  let paddleWidth := 10 in
  let paddles :=
    map (fun i : nat =>
           rectanglePart x y length paddleWidth false (ByLayout Paddlewheels)
                         (n + 1 + i)%nat)
        (seq 0 4) in
  let s1 := set_nextId (n + 5)%nat s in
  let '(wheel, s2) :=
    Body_create (fun i => mkBody (mkPart i "Body" false (mkVector x y) 0
                                         zeroVector 0 None (ByLayout Paddlewheels))
                                 (circle :: paddles)) s1 in
  let '(centerConstraint, s3) := Constraint_create (mkVector x y) wheel 0 1 s2 in
  World_add_constraint centerConstraint (World_add_bodies [wheel] s3).

(** [createPaddle(x, y, length)]: one non-static bar pinned at its centre.
    The constraint is created without a stiffness: Matter.js gives a
    constraint of length 0 the stiffness 0.7. *)
Definition createPaddle (x y length : Q) (s : EmojiPhysics) : EmojiPhysics :=
  let paddleWidth := 10 in
  let '(paddle, s1) :=
    Body_create (Bodies_rectangle x y length paddleWidth false (ByLayout Paddles)) s in
  let '(paddleToCircleConstraint, s2) :=
    Constraint_create (mkVector x y) paddle 0 (7 # 10) s1 in
  World_add_constraint paddleToCircleConstraint (World_add_bodies [paddle] s2).

(** The layout that [Init] builds for a value of [Math.random()]. *)
Definition chooseLayout (rnd : Q) : Layout :=
  if Qle_bool rnd (1 # 4) then Pegs
  else if Qle_bool rnd (1 # 2) then Slats
  else if Qle_bool rnd (3 # 4) then Paddlewheels
  else Paddles.

Definition bigBallAnchorPoint (s : EmojiPhysics) : Vector :=
  mkVector (RenderWidth s / 2) 0.

(** [addSwingingBall()]: the body is built in [img.onload]; the method
    itself only starts the load of the image. *)
Definition addSwingingBall (s : EmojiPhysics) : EmojiPhysics :=
  let circleBottomOffset := 5 in
  let constraintLength :=
    RenderHeight s - _bottomBorderOffset - _bottomBorderHeight / 2
    - BIG_BALL_RADIUS - circleBottomOffset in
  set_pendingImages (pendingImages s ++ [constraintLength]) s.

Definition butterflyUrl : string := "blob:BlueSkyButterfly".

(** [img.onload] of the [k]-th image still loading. *)
Definition img_onload (k : nat) (s : EmojiPhysics) : EmojiPhysics :=
  match pendingImages s !! k with
  | None => s
  | Some constraintLength =>
      let s0 := set_pendingImages (delete k (pendingImages s)) s in
      let '(ball, s1) :=
        Body_create (Bodies_circle (RenderWidth s0 / 2)
                                   (constraintLength + BIG_BALL_RADIUS)
                                   BIG_BALL_RADIUS false (Some butterflyUrl)
                                   BySwingingBall) s0 in
      let s2 := set__bigBallId ball (set__bigBall (Some ball) s1) in
      let '(constraint, s3) :=
        Constraint_create (bigBallAnchorPoint s2) ball constraintLength 1 s2 in
      World_add_constraint constraint (World_add_bodies [ball] s3)
  end.

(** [img.onerror] of the [k]-th image still loading. *)
Definition img_onerror (k : nat) (s : EmojiPhysics) : EmojiPhysics :=
  match pendingImages s !! k with
  | None => s
  | Some _ =>
      set_console (console s ++ ["Failed to load the SVG image:"])
                  (set_pendingImages (delete k (pendingImages s)) s)
  end.

(** [Init()], with the value [rnd] of its [Math.random()]. *)
Definition Init (rnd : Q) (s : EmojiPhysics) : EmojiPhysics :=
  let s0 := World_clear s in
  (* Render.setSize only concerns the renderer *)
  let '(boundaries, s1) :=
    Body_create_all
      [Bodies_rectangle (RenderWidth s0 / 2) (-10) (RenderWidth s0) 20
                        true ByInitBoundary;
       Bodies_rectangle (RenderWidth s0 / 2)
                        (RenderHeight s0 - _bottomBorderOffset)
                        (RenderWidth s0 * (8 # 10)) _bottomBorderHeight
                        true ByInitBoundary] s0 in
  let s2 := World_add_bodies boundaries s1 in
  let s3 :=
    if Qle_bool rnd (1 # 4) then createPegs 5 25 s2
    else if Qle_bool rnd (1 # 2) then createSlats s2
    else if Qle_bool rnd (3 # 4) then
      let paddleDiam := 250 in
      let rightPaddleWheelYPosition :=
        (RenderHeight s2 - BIG_BALL_RADIUS * 2) / 2 - 100 in
      let paddleDiamAdjust :=
        if Qgtb (paddleDiam / 2) (rightPaddleWheelYPosition - 5)
        then paddleDiam / 2 - rightPaddleWheelYPosition + 5 else 0 in
      let s' := createPaddlewheel
                  (RenderWidth s2 / 2 + paddleDiam / 2 - 10 - paddleDiamAdjust / 2)
                  rightPaddleWheelYPosition 20
                  (paddleDiam - paddleDiamAdjust * 2) s2 in
      createPaddlewheel (RenderWidth s2 / 2 - paddleDiam / 2 + 10)
                        ((RenderHeight s2 - BIG_BALL_RADIUS * 2) / 2) 50
                        paddleDiam s'
    else
      let paddleDiam := 220 in
      let s' := createPaddle (RenderWidth s2 / 2 + paddleDiam / 2)
                             ((RenderHeight s2 - BIG_BALL_RADIUS * 2) / 2) 220 s2 in
      createPaddle (RenderWidth s2 / 2 - paddleDiam / 2)
                   ((RenderHeight s2 - BIG_BALL_RADIUS * 2) / 2) 220 s' in
  addSwingingBall s3.

(** [set Dimensions({t, w, h})]. *)
Definition set_Dimensions (t w h : Q) (rnd : Q) (s : EmojiPhysics) : EmojiPhysics :=
  Init rnd (set_RenderTop t (set_RenderHeight h (set_RenderWidth w s))).

End Layouts.

(** ** The population of emoji balls *)

(** The test both passes apply to a part:
    [part.label === "Circle Body" && part.isStatic === false
     && part.id !== this._bigBallId]. *)
Definition isEmoji (s : EmojiPhysics) (part : Part) : bool :=
  String.eqb (label part) "Circle Body"
  && negb (isStatic part)
  && negb (Nat.eqb (id part) (_bigBallId s)).

Definition outOfBounds (s : EmojiPhysics) (part : Part) : bool :=
  Qgtb (vy (position part)) (RenderHeight s)
  || Qltb (vx (position part)) 0
  || Qgtb (vx (position part)) (RenderWidth s).

(** The "afterRender" handler: the cleanup pass of every frame. *)
Definition afterRender (s : EmojiPhysics) : EmojiPhysics :=
  let compounds := allBodies s in
  foldl (fun s1 compound =>
    foldl (fun s2 part =>
      let isCircle := isEmoji s2 part in
      if isCircle then
        if outOfBounds s2 part
        then set__emojiCount (_emojiCount s2 - 1) (World_remove part s2)
        else s2
      else s2) s1 (parts compound)) s compounds.

(** [ClearAllEmojis()]. *)
Definition ClearAllEmojis (s : EmojiPhysics) : EmojiPhysics :=
  let compounds := allBodies s in
  foldl (fun s1 compound =>
    foldl (fun s2 part =>
      if isEmoji s2 part
      then set__emojiCount (_emojiCount s2 - 1) (World_remove part s2)
      else s2) s1 (parts compound)) s compounds.

(** ** The pendulum's force law *)

Global Instance Rgt_decision (a b : R) : Decision (a > b)%R := Rgt_dec a b.
Global Instance Rlt_decision (a b : R) : Decision (a < b)%R := Rlt_dec a b.

(** [Math.atan2(y, x)] on the reals. *)
Definition Math_atan2 (y x : R) : R :=
  if decide (0 < x)%R then atan (y / x)
  else if decide (x < 0)%R then
    (if decide (y < 0)%R then atan (y / x) - PI else atan (y / x) + PI)%R
  else if decide (0 < y)%R then (PI / 2)%R
  else if decide (y < 0)%R then (- (PI / 2))%R
  else 0%R.

(** The angle the "beforeUpdate" handler computes for a body: that of the
    vector from the anchor to the body, as [Math.atan2(dy, dx)]. *)
Definition swingAngle (s : EmojiPhysics) (b : Body) : R :=
  Math_atan2 (Q2R (vy (position (core b)) - vy (bigBallAnchorPoint s)))
             (Q2R (vx (position (core b)) - vx (bigBallAnchorPoint s))).

(** [Body.applyForce(body, position, force)]: the force is added to the
    body's force, and the torque grows by the cross product of the offset
    of [position] from the body's centre with the force. *)
Definition Body_applyForce (b : Body) (at_ : Vector) (f : Vector) : Body :=
  let p := core b in
  let offx := (vx at_ - vx (position p))%Q in
  let offy := (vy at_ - vy (position p))%Q in
  mkBody (mkPart (id p) (label p) (isStatic p) (position p) (circleRadius p)
            (mkVector (vx (force p) + vx f) (vy (force p) + vy f))
            (torque p + (offx * vy f - offy * vx f))%Q
            (texture p) (madeBy p))
         (subparts b).

(** The direction after the reversal test of one tick. *)
Definition nextSwingDirection (angle : R) (dir : Z) : Z :=
  if bool_decide (Rabs angle > PI * (7 / 10))%R && Z.eqb dir (-1) then 1
  else if bool_decide (Rabs angle < PI * (3 / 10))%R && Z.eqb dir 1 then -1
  else dir.

(** Whether the tick pushes, given the direction after the reversal test. *)
Definition swingPushes (angle : R) (dir : Z) : bool :=
  (Z.eqb dir 1 && bool_decide (Rabs angle < PI / 2)%R)
  || (Z.eqb dir (-1) && bool_decide (Rabs angle > PI / 2)%R).

(** The "beforeUpdate" handler of the engine. *)
Definition beforeUpdate (s : EmojiPhysics) : EmojiPhysics :=
  match _bigBall s with
  | None => s
  | Some ref =>
      match heap s !! ref with
      | None => s
      | Some ball =>
          let angle := swingAngle s ball in
          let s1 := set__swingDirection (nextSwingDirection angle (_swingDirection s)) s in
          if swingPushes angle (_swingDirection s1)
          then set_heap (<[ref := Body_applyForce ball (position (core ball))
                                 (mkVector (inject_Z (_swingDirection s1) * _swingForce) 0)]>
                          (heap s1)) s1
          else s1
      end
  end.

(** What the engine does to the world between two handlers is not part of
    the class: the bodies in the world that are not static are moved, parts
    with them, to where [motion] says, and their forces are cleared. *)
Definition movePart (motion : nat -> Vector -> Vector) (p : Part) : Part :=
  if isStatic p then p
  else mkPart (id p) (label p) (isStatic p) (motion (id p) (position p))
              (circleRadius p) zeroVector 0 (texture p) (madeBy p).

Definition moveBody (motion : nat -> Vector -> Vector) (b : Body) : Body :=
  mkBody (movePart motion (core b)) (movePart motion <$> subparts b).

Definition Engine_update (motion : nat -> Vector -> Vector) (s : EmojiPhysics)
    : EmojiPhysics :=
  set_heap (foldl (fun h r => alter (moveBody motion) r h) (heap s) (world_bodies s)) s.

(** ** Textures and spawning *)

Section Spawning.

(** [canvas.toDataURL()]: the PNG of what is drawn, as a data URL. *)
Variable toDataURL : Canvas -> string.

(** [createEmojiTexture(emoji)]. *)
Definition createEmojiTexture (emoji : string) (s : EmojiPhysics) : string * EmojiPhysics :=
  let canvas :=
    match _sharedCanvas s with
    | Some c => c
    | None => mkCanvas 32 32 "28px sans-serif" "center" "middle" []
    end in
  let cleared := mkCanvas (cwidth canvas) (cheight canvas) (cfont canvas)
                          (ctextAlign canvas) (ctextBaseline canvas) [] in
  let painted := mkCanvas (cwidth cleared) (cheight cleared) (cfont cleared)
                          (ctextAlign cleared) (ctextBaseline cleared)
                          (drawn cleared ++ [(emoji, (cwidth cleared / 2)%Q,
                                              (cheight cleared / 2)%Q)]) in
  (toDataURL painted,
   set_rasterized (rasterized s ++ [emoji]) (set__sharedCanvas (Some painted) s)).

(** [getEmojiTexture(emoji)]. *)
Definition getEmojiTexture (emoji : string) (s : EmojiPhysics) : string * EmojiPhysics :=
  match _emojiMap s !! emoji with
  | Some t => (t, s)
  | None =>
      let '(texture, s1) := createEmojiTexture emoji s in
      (texture, set__emojiMap (<[emoji := texture]> (_emojiMap s1)) s1)
  end.

(** [CreateEmojiBall(emoji)], with the value [rnd] of its [Math.random()].
    The result is the ball, or [None] for [undefined].  [Bodies.circle]
    always yields an object, so the branch of the source for a missing
    ball is never taken. *)
Definition CreateEmojiBall (emoji : string) (rnd : Q) (s : EmojiPhysics)
    : option nat * EmojiPhysics :=
  if Z.leb MAX_EMOJIS (_emojiCount s) then
    (None, set_console (console s ++ ["Max emoji count exceeded..."]) s)
  else
    let '(emojiTexture, s1) := getEmojiTexture emoji s in
    let s2 := set__emojiCount (_emojiCount s1 + 1) s1 in
    let randomOffset := ((rnd * 2 - 1) * RenderWidth s2 / 50)%Q in
    let '(ball, s3) :=
      Body_create (Bodies_circle (RenderWidth s2 / 2 + randomOffset)%Q 0 10 false
                                 (Some emojiTexture) ByCreateEmojiBall) s2 in
    (Some ball, World_add_bodies [ball] s3).

(** ** Construction and the events of a run *)

(** The object before the constructor calls [Init]: the engine's world
    has taken id 0, nothing is loaded, the counter is 0. *)
Definition fresh (t w h : Q) : EmojiPhysics :=
  mkEmojiPhysics ∅ 1 [] [] w h t 0 0 None ∅ None (-1) [] [] [].

(** [new EmojiPhysics(container)] for a container of the given rectangle. *)
Definition construct (t w h : Q) (rnd : Q) : EmojiPhysics := Init rnd (fresh t w h).

Inductive Event :=
| EvCreateEmojiBall (emoji : string) (rnd : Q)
| EvClearAllEmojis
| EvInit (rnd : Q)
| EvDimensions (t w h : Q) (rnd : Q)
| EvAfterRender
| EvBeforeUpdate
| EvEngine (motion : nat -> Vector -> Vector)
| EvImgLoad (k : nat)
| EvImgError (k : nat).

Definition step (s : EmojiPhysics) (e : Event) : EmojiPhysics :=
  match e with
  | EvCreateEmojiBall emoji rnd => snd (CreateEmojiBall emoji rnd s)
  | EvClearAllEmojis => ClearAllEmojis s
  | EvInit rnd => Init rnd s
  | EvDimensions t w h rnd => set_Dimensions t w h rnd s
  | EvAfterRender => afterRender s
  | EvBeforeUpdate => beforeUpdate s
  | EvEngine motion => Engine_update motion s
  | EvImgLoad k => img_onload k s
  | EvImgError k => img_onerror k s
  end.

Definition run (s : EmojiPhysics) (es : list Event) : EmojiPhysics := foldl step s es.

(** The emoji balls that are in the world, and their number. *)
Definition liveEmojis (s : EmojiPhysics) : list Body :=
  filter (fun b => madeBy (core b) = ByCreateEmojiBall) (allBodies s).

Definition liveCount (s : EmojiPhysics) : Z := Z.of_nat (length (liveEmojis s)).

(** The pendulum bodies that are in the world. *)
Definition pendulums (s : EmojiPhysics) : list Body :=
  filter (fun b => madeBy (core b) = BySwingingBall) (allBodies s).

End Spawning.

(** * The page around the simulation

    [src/src/SkeetMoji.tsx]: the component that feeds posts to the
    simulation and shows their text in two columns.  Text is a sequence
    of code points, which is what a regular expression with the [u] flag
    matches on.  The classes of the feed ([JetstreamDetail],
    [BSkyApi_Record]) are declared elsewhere; the records below have the
    fields [processEvent] reads. *)

Record TextDiv := mkTextDiv {
  textContent : list N;
  offsetHeight : N              (* whole pixels; it does not depend on the siblings *)
}.

Record Column := mkColumn {
  clientHeight : N;             (* whole pixels; set by the page, not by the content *)
  children : list TextDiv       (* first child first *)
}.

Record BSkyApi_Record := mkBSkyApi_Record {
  Text : list N;
  Embed : option string         (* Embed.Type, when there is an Embed *)
}.

Record JetstreamDetail := mkJetstreamDetail {
  MessageCount : Z;
  DataLength : Z;
  CommitRecord : option BSkyApi_Record   (* PostResponse.Commit?.Record *)
}.

Record SkeetMoji := mkSkeetMoji {
  emojiPhysics : EmojiPhysics;
  emojiPosts : Z;
  messageCount : Z;
  dataReceived : Z;
  emojiMessageCount : Z;
  screenWidth : Q;
  elSkeetDivLeft : Column;
  elSkeetDivRight : Column;
  pageLog : list string         (* trace of console.log calls *)
}.

Inductive Side := LeftSide | RightSide.

(** How a handler ends. *)
Inductive Outcome := Returned | ThrewTypeError.

(** The loop of [cleanOverflow] over the snapshot [Array.from(div.children)]:
    the heights, with 5 for the margin, are summed over all the children,
    and a child is removed when the sum so far exceeds the height of the
    column.  The result lists the children that stay. *)
Fixpoint cleanOverflow_loop (parentHeightLeft totalHeightLeft : N)
    (snapshot : list TextDiv) : list TextDiv :=
  match snapshot with
  | [] => []
  | child :: rest =>
      let totalHeightLeft := (totalHeightLeft + (offsetHeight child + 5))%N in
      if N.ltb parentHeightLeft totalHeightLeft
      then cleanOverflow_loop parentHeightLeft totalHeightLeft rest
      else child :: cleanOverflow_loop parentHeightLeft totalHeightLeft rest
  end.

(** [cleanOverflow(div)]. *)
Definition cleanOverflow (div : Column) : Column :=
  mkColumn (clientHeight div) (cleanOverflow_loop (clientHeight div) 0%N (children div)).

Section Page.

(** [canvas.toDataURL()], as for the object. *)
Variable toDataURL : Canvas → string.
(** The character class of [emojiRegex]:
    [\p{Emoji_Presentation}] or [\p{Extended_Pictographic}]. *)
Variable isEmojiCodePoint : N → bool.
(** [String.prototype.toLowerCase]. *)
Variable toLowerCase : list N → list N.
(** The string of one code point, as handed to [CreateEmojiBall]. *)
Variable codePointString : N → string.
(** The height the browser gives a text div in a column. *)
Variable layoutHeight : Side → list N → N.

(** [extractEmojis(text)]: the matches of the character class, one code
    point each, from left to right. *)
Definition extractEmojis (text : list N) : list string :=
  codePointString <$> filter (fun c => isEmojiCodePoint c = true) text.

(** [emojiRegex.test(text)]. *)
Definition emojiRegex_test (text : list N) : bool :=
  existsb isEmojiCodePoint text.

(** [addText(text)]. *)
Definition addText (text : list N) (p : SkeetMoji) : SkeetMoji :=
  if Qle_bool 1000 (screenWidth p) && Z.eqb (Z.rem (emojiMessageCount p) 2) 0
  then
    let textDiv := mkTextDiv text (layoutHeight RightSide text) in
    mkSkeetMoji (emojiPhysics p) (emojiPosts p) (messageCount p) (dataReceived p)
      (emojiMessageCount p) (screenWidth p) (elSkeetDivLeft p)
      (cleanOverflow (mkColumn (clientHeight (elSkeetDivRight p))
                               (textDiv :: children (elSkeetDivRight p))))
      (pageLog p)
  else
    let textDiv := mkTextDiv text (layoutHeight LeftSide text) in
    mkSkeetMoji (emojiPhysics p) (emojiPosts p) (messageCount p) (dataReceived p)
      (emojiMessageCount p) (screenWidth p)
      (cleanOverflow (mkColumn (clientHeight (elSkeetDivLeft p))
                               (textDiv :: children (elSkeetDivLeft p))))
      (elSkeetDivRight p) (pageLog p).

(** The embed types the [switch] of [processEvent] knows. *)
Definition knownEmbed (ty : string) : bool :=
  String.eqb ty "app.bsky.embed.recordWithMedia"
  || String.eqb ty "app.bsky.embed.record"
  || String.eqb ty "app.bsky.embed.images"
  || String.eqb ty "app.bsky.embed.external"
  || String.eqb ty "app.bsky.embed.video".

(** The [for] loop of [processEvent]: one [CreateEmojiBall] call per
    emoji, the [i]-th with the value [rnd i] of its [Math.random()]. *)
Definition createBalls (emojis : list string) (rnd : nat → Q) (e : EmojiPhysics)
    : EmojiPhysics :=
  foldl (fun e c => (CreateEmojiBall toDataURL c.1 c.2 e).2) e
        (imap (fun i emoji => (emoji, rnd i)) emojis).

(** [processEvent(eventDetail)].  The local [media] of the source is set
    and never read; of the [console.log] for an unknown embed type the
    trace keeps the type. *)
Definition processEvent (eventDetail : JetstreamDetail) (rnd : nat → Q)
    (p : SkeetMoji) : Outcome * SkeetMoji :=
  let p1 := mkSkeetMoji (emojiPhysics p) (emojiPosts p) (MessageCount eventDetail)
              (DataLength eventDetail) (emojiMessageCount p) (screenWidth p)
              (elSkeetDivLeft p) (elSkeetDivRight p) (pageLog p) in
  match CommitRecord eventDetail with
  | None => (ThrewTypeError, p1)   (* record.Embed of undefined *)
  | Some record =>
      let p2 :=
        match Embed record with
        | Some ty =>
            if knownEmbed ty then p1
            else mkSkeetMoji (emojiPhysics p1) (emojiPosts p1) (messageCount p1)
                   (dataReceived p1) (emojiMessageCount p1) (screenWidth p1)
                   (elSkeetDivLeft p1) (elSkeetDivRight p1) (pageLog p1 ++ [ty])
        | None => p1
        end in
      let lower := toLowerCase (Text record) in
      if negb (bool_decide (lower = [])) && emojiRegex_test lower then
        let p3 := mkSkeetMoji (emojiPhysics p2) (emojiPosts p2 + 1) (messageCount p2)
                    (dataReceived p2) (emojiMessageCount p2) (screenWidth p2)
                    (elSkeetDivLeft p2) (elSkeetDivRight p2) (pageLog p2) in
        let emojis := extractEmojis lower in
        if Nat.ltb 0 (length emojis) then
          let p4 := mkSkeetMoji (emojiPhysics p3) (emojiPosts p3) (messageCount p3)
                      (dataReceived p3) (emojiMessageCount p3 + 1) (screenWidth p3)
                      (elSkeetDivLeft p3) (elSkeetDivRight p3) (pageLog p3) in
          let p5 := addText (Text record) p4 in
          (Returned,
           mkSkeetMoji (createBalls emojis rnd (emojiPhysics p5)) (emojiPosts p5)
             (messageCount p5) (dataReceived p5) (emojiMessageCount p5)
             (screenWidth p5) (elSkeetDivLeft p5) (elSkeetDivRight p5) (pageLog p5))
        else (Returned, p3)
      else (Returned, p2)
  end.

(** [clearFeed()].  [jetstream.clear()] belongs to the feed client and
    touches nothing of the page. *)
Definition clearFeed (p : SkeetMoji) : SkeetMoji :=
  mkSkeetMoji (ClearAllEmojis (emojiPhysics p)) (emojiPosts p) 0 0 0 (screenWidth p)
    (elSkeetDivLeft p) (elSkeetDivRight p) (pageLog p).

End Page.

(** The heights of a list of text divs stacked with their margins. *)
Definition stackHeight (l : list TextDiv) : N :=
  foldr (fun child acc => (offsetHeight child + 5 + acc)%N) 0%N l.

(** The column [addText] writes to. *)
Definition textSide (p : SkeetMoji) : Side :=
  if Qle_bool 1000 (screenWidth p) && Z.eqb (Z.rem (emojiMessageCount p) 2) 0
  then RightSide else LeftSide.

Definition columnOf (side : Side) (p : SkeetMoji) : Column :=
  match side with LeftSide => elSkeetDivLeft p | RightSide => elSkeetDivRight p end.

Definition otherSide (side : Side) : Side :=
  match side with LeftSide => RightSide | RightSide => LeftSide end.

(** A column shows no more than fits. *)
Definition fits (c : Column) : Prop := (stackHeight (children c) ≤ clientHeight c)%N.

(** * Vocabulary of the properties *)

(** A part passes the shape half of [isEmoji]. *)
Definition circleLike (p : Part) : bool :=
  String.eqb (label p) "Circle Body" && negb (isStatic p).

(** What the engine and [Body.applyForce] never change in a body. *)
Definition shape (b : Body) : nat * bool * Maker * list nat :=
  (id (core b), circleLike (core b), madeBy (core b), id <$> (subparts b)).

(** A body looks as its maker builds it: an emoji ball is a lone
    non-static circle; boundaries and obstacles fail the shape test. *)
Definition typed (b : Body) : Prop :=
  match madeBy (core b) with
  | ByCreateEmojiBall => circleLike (core b) = true ∧ id <$> (subparts b) = []
  | BySwingingBall => True
  | ByInitBoundary | ByLayout _ => circleLike (core b) = false
  end.

(** The heap is in order: a body sits under its own id, ids in use are
    below the id counter, the parts of a compound are no bodies of their
    own, and no emoji ball has the id of the big ball. *)
Record heap_ok (s : EmojiPhysics) : Prop := {
  hk_body : ∀ r b, heap s !! r = Some b →
            id (core b) = r ∧ (r < nextId s)%nat ∧ typed b;
  hk_sub : ∀ r b i, heap s !! r = Some b → i ∈ id <$> (subparts b) →
           (i < nextId s)%nat ∧ heap s !! i = None;
  hk_big : (_bigBallId s < nextId s)%nat;
  hk_emoji : ∀ r b, heap s !! r = Some b →
             madeBy (core b) = ByCreateEmojiBall → r ≠ _bigBallId s
}.

(** A well-formed object: the heap is in order and the world lists live
    bodies, each once. *)
Record wf (s : EmojiPhysics) : Prop := {
  wf_heap : heap_ok s;
  wf_in : ∀ r, r ∈ world_bodies s → is_Some (heap s !! r);
  wf_nodup : NoDup (world_bodies s)
}.

(** The heap after the bodies of a loop have been created from id [n] on. *)
Fixpoint alloc_heap (n : nat) (mks : list (nat → Body)) (h : gmap nat Body)
    : gmap nat Body :=
  match mks with
  | [] => h
  | mk :: rest => alloc_heap (S n) rest (<[n := mk n]> h)
  end.

(** A maker of a body without parts of its own. *)
Definition good_mk (mk : nat → Body) : Prop :=
  ∀ i, id (core (mk i)) = i ∧ subparts (mk i) = [] ∧ typed (mk i)
       ∧ madeBy (core (mk i)) ≠ ByCreateEmojiBall.

(** The loop both passes run over the parts [ps] of a snapshot: a part
    that passes the test [sel] is handed to [World.remove] and costs the
    counter one. *)
Definition sweep (sel : EmojiPhysics → Part → bool) (s : EmojiPhysics)
    (ps : list Part) : EmojiPhysics :=
  foldl (fun s2 part =>
           if sel s2 part
           then set__emojiCount (_emojiCount s2 - 1) (World_remove part s2)
           else s2) s ps.

(** The test of the cleanup pass. *)
Definition cleanupHit (s : EmojiPhysics) (p : Part) : bool :=
  isEmoji s p && outOfBounds s p.

(** What is left of [world.bodies] once the parts selected in [ps] have
    been handed to [World.remove]. *)
Definition removeHits (sel0 : Part → bool) (w : list nat) (ps : list Part) : list nat :=
  foldl (fun w p => if sel0 p then remove_first (id p) w else w) w ps.

(** How many parts pass a test. *)
Definition hits (sel0 : Part → bool) (ps : list Part) : Z :=
  Z.of_nat (length (filter (fun p => sel0 p = true) ps)).

(** Every reference in the world is to an id already drawn. *)
Definition world_below (s : EmojiPhysics) : Prop :=
  ∀ r, r ∈ world_bodies s → (r < nextId s)%nat.

(** [s'] is [s] with new bodies, all satisfying [Φ], appended to the
    world; what was on the heap is untouched. *)
Definition grows (Φ : Body → Prop) (s s' : EmojiPhysics) : Prop :=
  (nextId s ≤ nextId s')%nat
  ∧ (∀ r, (r < nextId s)%nat → heap s' !! r = heap s !! r)
  ∧ ∃ rest, world_bodies s' = world_bodies s ++ rest
            ∧ Forall (fun r => (nextId s ≤ r < nextId s')%nat
                               ∧ ∃ b, heap s' !! r = Some b ∧ Φ b) rest.

(** The bodies of one layout. *)
Definition ofLayout (l : Layout) (b : Body) : Prop := madeBy (core b) = ByLayout l.

(** The two boundaries of [Init]. *)
Definition isBoundary (b : Body) : Prop := madeBy (core b) = ByInitBoundary.

(** The events of a sequence of [CreateEmojiBall] calls. *)
Definition spawns (calls : list (string * Q)) : list Event :=
  (fun c => EvCreateEmojiBall c.1 c.2) <$> calls.

(** The number of positions of a grid of [rows] by [cols] whose row and
    column have the same parity. *)
Definition quincunx (rows cols : nat) : nat :=
  length (filter (fun rc : nat * nat => Nat.even rc.1 = Nat.even rc.2)
                 (list_prod (seq 0 rows) (seq 0 cols))).










(** A stand-in for the browser's PNG encoder in the runs below. *)
Definition exampleDataURL (c : Canvas) : string :=
  match drawn c with
  | [(emoji, _, _)] => String.append "data:image/png;glyph=" emoji
  | _ => "data:image/png;blank"
  end.

(** A 1000 x 600 container and a random value that selects the two
    paddlewheels. *)
Definition wheelWorld : EmojiPhysics := construct 0 1000 600 (6 # 10).

(** The world at the cap: a thousand balls spawned after construction. *)
Definition fullWorld : EmojiPhysics :=
  run exampleDataURL wheelWorld (spawns (replicate 1000 ("a", 1 # 2))).

(** A world with the pendulum loaded and one ball that has fallen below
    the bottom edge. *)
Definition fallen (i : nat) (p : Vector) : Vector :=
  if Nat.eqb i 19 then mkVector (vx p) 700 else p.

Definition fallenWorld : EmojiPhysics :=
  run exampleDataURL wheelWorld
      [EvImgLoad 0; EvCreateEmojiBall "a" (1 # 2); EvEngine fallen].

Definition fallenBall : Body :=
  Bodies_circle (1000 / 2 + (Qmake 1 2 * 2 - 1) * 1000 / 50)%Q 700 10 false
                (Some (exampleDataURL
                         (mkCanvas 32 32 "28px sans-serif" "center" "middle"
                                   [("a", (32 / 2)%Q, (32 / 2)%Q)])))
                ByCreateEmojiBall 19.

(** Three balls spawned, then a rebuild with the pegs. *)
Definition threeBalls : EmojiPhysics :=
  run exampleDataURL wheelWorld
      (spawns [("a", 1 # 2); ("b", 1 # 4); ("a", 3 # 4)]).

(** The pendulum loaded and swung to the far left of the anchor. *)
Definition swungLeft (i : nat) (p : Vector) : Vector :=
  if Nat.eqb i 17 then mkVector 400 0 else p.

Definition leftWorld : EmojiPhysics :=
  run exampleDataURL wheelWorld [EvImgLoad 0; EvEngine swungLeft].

Definition leftBall : Body :=
  mkBody (mkPart 17 "Circle Body" false (mkVector 400 0) BIG_BALL_RADIUS
                 zeroVector 0 (Some butterflyUrl) BySwingingBall) [].

(** The angle of the big ball "measured from vertical", following the
    words of the specification: 0 when the ball hangs straight below the
    anchor. *)
Definition angleFromVertical (s : EmojiPhysics) (b : Body) : R :=
  Math_atan2 (Q2R (vx (position (core b)) - vx (bigBallAnchorPoint s)))
             (Q2R (vy (position (core b)) - vy (bigBallAnchorPoint s))).

(** The same angle taken from the upward vertical: [π] when the ball
    hangs straight below the anchor. *)
Definition angleFromUpVertical (s : EmojiPhysics) (b : Body) : R :=
  Math_atan2 (Q2R (vx (position (core b)) - vx (bigBallAnchorPoint s)))
             (Q2R (- (vy (position (core b)) - vy (bigBallAnchorPoint s)))).

(** The condition under which the specification has the force applied. *)
Definition claimedPush (θ : R) (d : Z) : Prop :=
  (d = 1%Z ∧ (Rabs θ < PI / 2)%R) ∨ (d = (-1)%Z ∧ (Rabs θ > PI / 2)%R).

(** The pendulum just loaded: it hangs straight down, direction -1. *)
Definition loadedWorld : EmojiPhysics :=
  run exampleDataURL wheelWorld [EvImgLoad 0].

Definition loadedBall : Body :=
  Bodies_circle (1000 / 2)%Q (600 - 20 - 20 / 2 - 50 - 5 + 50)%Q BIG_BALL_RADIUS
                false (Some butterflyUrl) BySwingingBall 17.

(** After swinging left and reversing, the pendulum hangs straight down
    with direction 1. *)
Definition hangsDown (i : nat) (p : Vector) : Vector :=
  if Nat.eqb i 17 then mkVector 500 100 else p.

Definition hangingWorld : EmojiPhysics :=
  run exampleDataURL wheelWorld
      [EvImgLoad 0; EvEngine swungLeft; EvBeforeUpdate; EvEngine hangsDown].

Definition hangingBall : Body :=
  mkBody (mkPart 17 "Circle Body" false (mkVector 500 100) BIG_BALL_RADIUS
                 zeroVector 0 (Some butterflyUrl) BySwingingBall) [].

(** The only parts that pass the emoji test are emoji balls themselves:
    no part of a compound passes it, and a body that passes it was made by
    [CreateEmojiBall]. *)
Definition impostorFree (s : EmojiPhysics) : bool :=
  forallb (fun b =>
             (negb (isEmoji s (core b))
              || bool_decide (madeBy (core b) = ByCreateEmojiBall))
             && forallb (fun p => negb (isEmoji s p)) (subparts b))
          (allBodies s).

(** The events of the life of the population: spawning, the two passes,
    and the engine with its tick handler. *)
Definition populationEvent (e : Event) : bool :=
  match e with
  | EvCreateEmojiBall _ _ | EvClearAllEmojis | EvAfterRender
  | EvBeforeUpdate | EvEngine _ => true
  | EvInit _ | EvDimensions _ _ _ _ | EvImgLoad _ | EvImgError _ => false
  end.

(** What the emoji test and the makers see of a body. *)
Definition bodyKind (b : Body) : nat * bool * Maker * list (nat * bool) :=
  (id (core b), circleLike (core b), madeBy (core b),
   (fun p => (id p, circleLike p)) <$> subparts b).

(** The canvas after [createEmojiTexture] has drawn [emoji] on it: the
    fixed setup and that glyph alone, centred. *)
Definition glyphCanvas (emoji : string) : Canvas :=
  mkCanvas 32 32 "28px sans-serif" "center" "middle" [(emoji, (32 / 2)%Q, (32 / 2)%Q)].

(** The texture cache is in order: every symbol was drawn once, the cached
    symbols are the drawn ones, each cached texture is the image of the
    canvas with that symbol alone, and the canvas keeps its setup. *)
Definition cache_ok (toDataURL : Canvas → string) (s : EmojiPhysics) : Prop :=
  NoDup (rasterized s)
  ∧ (∀ e, e ∈ rasterized s ↔ is_Some (_emojiMap s !! e))
  ∧ (∀ e tx, _emojiMap s !! e = Some tx → tx = toDataURL (glyphCanvas e))
  ∧ (∀ c, _sharedCanvas s = Some c →
          ∃ e, c = glyphCanvas e ∧ last (rasterized s) = Some e)
  ∧ (_sharedCanvas s = None → rasterized s = []).

(** A world with the pegs, the pendulum loaded and one ball. *)
Definition pegsWorld : EmojiPhysics :=
  run exampleDataURL (construct 0 1000 600 (1 # 10))
      [EvImgLoad 0; EvCreateEmojiBall "a" (1 # 2)].

(** Stand-ins for the browser in the runs of the page: the emoji blocks
    U+1F300 to U+1FAFF for the character class, ASCII for the lower case,
    the last byte of a code point for its string, and 20 pixels per line
    of 40 code points. *)
Definition exampleIsEmoji (c : N) : bool := N.leb 127744 c && N.leb c 129535.

Definition exampleLower (text : list N) : list N :=
  (fun c => if N.leb 65 c && N.leb c 90 then (c + 32)%N else c) <$> text.

Definition exampleString (c : N) : string :=
  String (Ascii.ascii_of_N (c mod 256)) EmptyString.

Definition exampleHeight (side : Side) (text : list N) : N :=
  (20 * (1 + N.of_nat (length text) / 40))%N.

(** A post with the text "Hi" followed by two emoji. *)
Definition examplePost : BSkyApi_Record :=
  mkBSkyApi_Record [72; 105; 128512; 128640]%N None.

(** The page on a world with pegs, one ball in it, and two columns of
    100 pixels. *)
Definition pegsPage : SkeetMoji :=
  mkSkeetMoji pegsWorld 1 1 10 1 1000 (mkColumn 100 []) (mkColumn 100 []) [].

(** Two [Init] calls before the first image load: the first load has
    put a pendulum body in the world and the second is still pending. *)
Definition twoLoads : EmojiPhysics :=
  run exampleDataURL wheelWorld [EvInit (1 # 10); EvImgLoad 0].

Definition twoLoadsBall : Body :=
  Bodies_circle (1000 / 2)%Q (600 - 20 - 20 / 2 - 50 - 5 + 50)%Q BIG_BALL_RADIUS
                false (Some butterflyUrl) BySwingingBall 91.

(** A 200 x 600 container with the two paddlewheels, after one rendered
    frame, and then 1002 balls spawned. *)
Definition narrowWorld : EmojiPhysics :=
  run exampleDataURL (construct 0 200 600 (6 # 10)) [EvAfterRender].

Definition overfullWorld : EmojiPhysics :=
  run exampleDataURL narrowWorld (spawns (replicate 1002 ("a", 1 # 2))).

(** A resize to 1000 x 400 before the image of the constructor has
    loaded; then both images load. *)
Definition stalePendulumWorld : EmojiPhysics :=
  run exampleDataURL wheelWorld
      [EvDimensions 0 1000 400 (1 # 10); EvImgLoad 0; EvImgLoad 0].

(** * Invariants of the object graph *)

Lemma shape_inv b b' :
  shape b' = shape b →
  id (core b') = id (core b) ∧ circleLike (core b') = circleLike (core b)
  ∧ madeBy (core b') = madeBy (core b)
  ∧ id <$> (subparts b') = id <$> (subparts b).
Proof. unfold shape. intros [= H1 H2 H3 H4]. done. Qed.

Lemma typed_shape b b' : shape b' = shape b → typed b → typed b'.
Proof.
  intros (H1 & H2 & H3 & H4)%shape_inv. unfold typed. by rewrite H3, H2, H4.
Qed.

Lemma movePart_same motion p :
  id (movePart motion p) = id p
  ∧ circleLike (movePart motion p) = circleLike p
  ∧ madeBy (movePart motion p) = madeBy p.
Proof.
  unfold movePart, circleLike. destruct (isStatic p) eqn:E; simpl; by rewrite ?E.
Qed.

Lemma shape_moveBody motion b : shape (moveBody motion b) = shape b.
Proof.
  unfold shape, moveBody; simpl.
  destruct (movePart_same motion (core b)) as (-> & -> & ->).
  f_equal. rewrite <- list_fmap_compose. apply list_fmap_ext. intros _ p _.
  apply (movePart_same motion p).
Qed.

Lemma shape_applyForce b at_ f : shape (Body_applyForce b at_ f) = shape b.
Proof. reflexivity. Qed.

(** A state whose heap has the same bodies up to [shape], and the same
    ids, keeps the heap invariant. *)
Lemma heap_ok_shape s s' :
  (∀ r, shape <$> heap s' !! r = shape <$> heap s !! r) →
  nextId s' = nextId s → _bigBallId s' = _bigBallId s →
  heap_ok s → heap_ok s'.
Proof.
  intros Hh Hn Hb [H1 H2 H3 H4].
  assert (Hget : ∀ r b', heap s' !! r = Some b' →
                 ∃ b, heap s !! r = Some b ∧ shape b' = shape b).
  { intros r b' E. specialize (Hh r). rewrite E in Hh. simpl in Hh.
    destruct (heap s !! r) as [b|]; [|done].
    exists b. split; [done|]. simpl in Hh. congruence. }
  assert (Hnone : ∀ r, heap s !! r = None → heap s' !! r = None).
  { intros r E. specialize (Hh r). rewrite E in Hh.
    destruct (heap s' !! r); simplify_eq/=. done. }
  split.
  - intros r b' E. destruct (Hget _ _ E) as (b & Eb & Hs).
    destruct (H1 _ _ Eb) as (Hid & Hlt & Ht). rewrite Hn.
    destruct (shape_inv _ _ Hs) as (Ha & _).
    split_and!; [congruence | done | by eapply typed_shape].
  - intros r b' i E Hi. destruct (Hget _ _ E) as (b & Eb & Hs).
    destruct (shape_inv _ _ Hs) as (_ & _ & _ & Hd). rewrite Hd in Hi.
    destruct (H2 _ _ _ Eb Hi) as [? ?]. rewrite Hn. split; [done | by apply Hnone].
  - by rewrite Hn, Hb.
  - intros r b' E Hm. destruct (Hget _ _ E) as (b & Eb & Hs).
    destruct (shape_inv _ _ Hs) as (_ & _ & Hc & _).
    rewrite Hb. apply (H4 _ _ Eb). congruence.
Qed.

(** [wf] reads four fields only. *)
Lemma wf_same s s' :
  heap s' = heap s → nextId s' = nextId s →
  world_bodies s' = world_bodies s → _bigBallId s' = _bigBallId s →
  wf s → wf s'.
Proof.
  intros Hh Hn Hw Hb [H1 H2 H3]. split.
  - apply (heap_ok_shape s); [intros r; by rewrite Hh | done..].
  - intros r. rewrite Hw, Hh. apply H2.
  - by rewrite Hw.
Qed.

(** Adding one new body, with an id (and ids of its parts) the heap has
    not seen, keeps [wf]; the new body may become the big ball if it is
    not an emoji ball. *)
Lemma wf_add_body s s' b :
  wf s → typed b →
  (nextId s ≤ id (core b) < nextId s')%nat →
  (∀ i, i ∈ id <$> subparts b →
        (nextId s ≤ i < nextId s')%nat ∧ i ≠ id (core b)) →
  heap s' = <[id (core b) := b]> (heap s) →
  world_bodies s' = world_bodies s ++ [id (core b)] →
  (_bigBallId s' = _bigBallId s
   ∨ (_bigBallId s' = id (core b) ∧ madeBy (core b) ≠ ByCreateEmojiBall)) →
  wf s'.
Proof.
  intros [[H1 H2 H3 H4] Hin Hnd] Ht Hid Hsub Hh Hw Hb.
  assert (Hold : ∀ r b0, heap s !! r = Some b0 → r ≠ id (core b)).
  { intros r b0 E. destruct (H1 _ _ E) as (_ & ? & _). lia. }
  split; [split|..].
  - intros r b0. rewrite Hh, lookup_insert. case_decide as Hd.
    + intros [= <-]. split_and!; [done | lia | done].
    + intros E. destruct (H1 _ _ E) as (? & ? & ?). split_and!; [done | lia | done].
  - intros r b0 i. rewrite Hh, lookup_insert. case_decide as Hd.
    + intros [= <-] Hi. destruct (Hsub _ Hi) as [Hr Hne]. split; [lia|].
      rewrite lookup_insert_ne by done.
      destruct (heap s !! i) as [bi|] eqn:E; [|done].
      destruct (H1 _ _ E) as (_ & ? & _). lia.
    + intros E Hi. destruct (H2 _ _ _ E Hi) as [Hlt Hn]. split; [lia|].
      rewrite lookup_insert_ne by lia. done.
  - destruct Hb as [-> | [-> _]]; lia.
  - intros r b0. rewrite Hh, lookup_insert. case_decide as Hd.
    + intros [= <-] Hm. destruct Hb as [-> | [_ Hne]]; [lia | done].
    + intros E Hm. destruct Hb as [-> | [-> _]]; [by eapply H4 | done].
  - intros r. rewrite Hw, Hh, elem_of_app, list_elem_of_singleton.
    intros [Hr | ->]; [|by rewrite lookup_insert_eq].
    destruct (Hin _ Hr) as [b0 E]. rewrite lookup_insert_ne; [eauto|].
    intros <-. by eapply Hold.
  - rewrite Hw. apply NoDup_app. split_and!; [done | | apply NoDup_singleton].
    intros r Hr ->%list_elem_of_singleton.
    destruct (Hin _ Hr) as [b0 E]. by eapply Hold.
Qed.

(** ** Bodies created in a loop *)

Lemma Body_create_all_eq mks s :
  Body_create_all mks s =
  (seq (nextId s) (length mks),
   set_heap (alloc_heap (nextId s) mks (heap s))
            (set_nextId (nextId s + length mks) s)).
Proof.
  revert s. induction mks as [|mk rest IH]; intros s; simpl.
  - destruct s; simpl. by rewrite Nat.add_0_r.
  - unfold Body_create. rewrite IH. simpl. by rewrite Nat.add_succ_r.
Qed.

Lemma alloc_heap_lookup_lt mks n h r :
  (r < n)%nat → alloc_heap n mks h !! r = h !! r.
Proof.
  revert n h. induction mks as [|mk rest IH]; intros n h Hr; simpl; [done|].
  rewrite IH by lia. apply lookup_insert_ne. lia.
Qed.

Lemma alloc_heap_lookup_new mks n h i mk :
  mks !! i = Some mk → alloc_heap n mks h !! (n + i)%nat = Some (mk (n + i)%nat).
Proof.
  revert n h i. induction mks as [|mk0 rest IH]; intros n h i E; [done|].
  destruct i as [|i]; simpl in *.
  - simplify_eq. rewrite Nat.add_0_r, alloc_heap_lookup_lt by lia.
    apply lookup_insert_eq.
  - rewrite Nat.add_succ_r. by apply (IH (S n)).
Qed.

Lemma wf_alloc mks s s' :
  wf s → Forall good_mk mks →
  heap s' = alloc_heap (nextId s) mks (heap s) →
  nextId s' = (nextId s + length mks)%nat →
  world_bodies s' = world_bodies s ++ seq (nextId s) (length mks) →
  _bigBallId s' = _bigBallId s →
  wf s'.
Proof.
  revert s. induction mks as [|mk rest IH]; intros s Hwf Hg Hh Hn Hw Hb; simpl in *.
  - apply (wf_same s); [done | lia | by rewrite Hw, app_nil_r | done | done].
  - inversion Hg as [|? ? Hmk Hrest]; subst.
    destruct (Hmk (nextId s)) as (Hid & Hsub & Ht & _).
    set (sm := set_world_bodies (world_bodies s ++ [nextId s])
                 (set_heap (<[nextId s := mk (nextId s)]> (heap s))
                    (set_nextId (S (nextId s)) s))).
    apply (IH sm); simpl; [| done | done | lia | | done].
    + apply (wf_add_body s sm (mk (nextId s))); simpl; rewrite ?Hid, ?Hsub; auto.
      intros i Hi. by apply elem_of_nil in Hi.
    + by rewrite Hw, <- app_assoc.
Qed.

(** ** The methods keep the invariant *)

Lemma good_mk_circle_static x y radius tex l :
  good_mk (Bodies_circle x y radius true tex (ByLayout l)).
Proof. intros i. by cbv. Qed.

Lemma good_mk_rectangle x y w h static m :
  m ≠ ByCreateEmojiBall → good_mk (Bodies_rectangle x y w h static m).
Proof.
  intros Hm i. unfold typed, circleLike; simpl.
  split_and!; [done.. | | done]. by destruct m.
Qed.

Lemma pegs_good radius spacing s : Forall good_mk (pegs radius spacing s).
Proof.
  unfold pegs. apply Forall_flat_map, Forall_forall. intros row _.
  apply Forall_flat_map, Forall_forall. intros col _.
  destruct (_ || _); [|constructor].
  constructor; [apply good_mk_circle_static | constructor].
Qed.

Lemma slats_good s : Forall good_mk (slats s).
Proof.
  unfold slats. apply Forall_map, Forall_forall. intros i _ n.
  destruct (Nat.even i); by cbv.
Qed.

Lemma wf_createPegs radius spacing s : wf s → wf (createPegs radius spacing s).
Proof.
  intros Hwf. unfold createPegs. rewrite Body_create_all_eq.
  by apply (wf_alloc (pegs radius spacing s) s); [| apply pegs_good |..].
Qed.

Lemma wf_createSlats s : wf s → wf (createSlats s).
Proof.
  intros Hwf. unfold createSlats. rewrite Body_create_all_eq.
  by apply (wf_alloc (slats s) s); [| apply slats_good |..].
Qed.

Lemma wf_createPaddlewheel x y radius len s :
  wf s → wf (createPaddlewheel x y radius len s).
Proof.
  intros Hwf.
  eapply (wf_add_body s _ (mkBody (mkPart (nextId s + 5) "Body" false (mkVector x y) 0
            zeroVector 0 None (ByLayout Paddlewheels)) _));
    [done | by cbv | simpl; lia | | reflexivity | reflexivity | by left].
  intros i. simpl. rewrite !elem_of_cons, elem_of_nil. lia.
Qed.

Lemma wf_createPaddle x y len s : wf s → wf (createPaddle x y len s).
Proof.
  intros Hwf.
  eapply (wf_add_body s _ (Bodies_rectangle x y len 10 false (ByLayout Paddles) (nextId s)));
    [done | by cbv | simpl; lia | | reflexivity | reflexivity | by left].
  intros i Hi. by apply elem_of_nil in Hi.
Qed.

Lemma wf_World_clear s : wf s → wf (World_clear s).
Proof.
  intros [H1 H2 H3]. split; simpl.
  - by apply (heap_ok_shape s).
  - intros r Hr. by apply elem_of_nil in Hr.
  - constructor.
Qed.

Lemma wf_Init rnd s : wf s → wf (Init rnd s).
Proof.
  intros Hwf. unfold Init. rewrite Body_create_all_eq.
  set (s2 := World_add_bodies _ _).
  assert (H2 : wf s2).
  { eapply (wf_alloc _ (World_clear s)); [by apply wf_World_clear | | reflexivity..].
    repeat constructor; by apply good_mk_rectangle. }
  clearbody s2.
  match goal with |- wf (addSwingingBall ?x) => apply (wf_same x); [reflexivity.. |] end.
  repeat case_match;
    auto using wf_createPegs, wf_createSlats, wf_createPaddlewheel, wf_createPaddle.
Qed.

(** ** The two passes over the world

    Both passes have the same shape: every part of every body of the
    snapshot is tested, and a part that passes is handed to
    [World.remove] and costs the counter one. *)

Lemma foldl_pointwise {A B} (f g : A → B → A) l a :
  (∀ a b, f a b = g a b) → foldl f a l = foldl g a l.
Proof.
  intros Hfg. revert a. induction l as [|x l IH]; intros a; simpl; [done|].
  by rewrite Hfg, IH.
Qed.

Lemma foldl_nested {A B C} (f : A → C → A) (g : B → list C) l a :
  foldl (fun a b => foldl f a (g b)) a l = foldl f a (l ≫= g).
Proof.
  revert a. induction l as [|x l IH]; intros a; [done|].
  change ((x :: l) ≫= g) with (g x ++ (l ≫= g)).
  rewrite foldl_app. apply IH.
Qed.

Lemma afterRender_sweep s :
  afterRender s = sweep cleanupHit s (allBodies s ≫= parts).
Proof.
  unfold afterRender. rewrite foldl_nested.
  apply foldl_pointwise. intros a p. unfold cleanupHit.
  by destruct (isEmoji a p), (outOfBounds a p).
Qed.

Lemma ClearAllEmojis_sweep s :
  ClearAllEmojis s = sweep isEmoji s (allBodies s ≫= parts).
Proof. unfold ClearAllEmojis. by rewrite foldl_nested. Qed.

Lemma sweep_spec_aux sel sel0 ps :
  (∀ s1 c w p, sel (set__emojiCount c (set_world_bodies w s1)) p = sel s1 p) →
  ∀ s, (∀ p, sel s p = sel0 p) →
  sweep sel s ps =
  set__emojiCount (_emojiCount s - hits sel0 ps)
    (set_world_bodies (removeHits sel0 (world_bodies s) ps) s).
Proof.
  intros Hst. unfold hits. induction ps as [|p ps IH]; intros s Hs; simpl.
  - unfold set__emojiCount, set_world_bodies. destruct s; simpl. f_equal. lia.
  - unfold sweep in *. simpl. rewrite Hs. destruct (sel0 p) eqn:Ep.
    + rewrite IH by (intros q; unfold World_remove; by rewrite Hst).
      rewrite filter_cons_True by done.
      unfold removeHits; simpl. rewrite ?Ep.
      unfold set__emojiCount, set_world_bodies, World_remove; simpl.
      f_equal. lia.
    + rewrite IH by done. rewrite filter_cons_False by (by rewrite Ep).
      unfold removeHits; simpl. by rewrite ?Ep.
Qed.

Lemma sweep_spec sel s ps :
  (∀ s1 c w p, sel (set__emojiCount c (set_world_bodies w s1)) p = sel s1 p) →
  sweep sel s ps =
  set__emojiCount (_emojiCount s - hits (sel s) ps)
    (set_world_bodies (removeHits (sel s) (world_bodies s) ps) s).
Proof. intros Hst. by apply sweep_spec_aux. Qed.

Lemma isEmoji_stable s1 c w p :
  isEmoji (set__emojiCount c (set_world_bodies w s1)) p = isEmoji s1 p.
Proof. reflexivity. Qed.

Lemma cleanupHit_stable s1 c w p :
  cleanupHit (set__emojiCount c (set_world_bodies w s1)) p = cleanupHit s1 p.
Proof. reflexivity. Qed.

Lemma afterRender_spec s :
  afterRender s =
  set__emojiCount (_emojiCount s - hits (cleanupHit s) (allBodies s ≫= parts))
    (set_world_bodies
       (removeHits (cleanupHit s) (world_bodies s) (allBodies s ≫= parts)) s).
Proof. rewrite afterRender_sweep. apply sweep_spec, cleanupHit_stable. Qed.

Lemma ClearAllEmojis_spec s :
  ClearAllEmojis s =
  set__emojiCount (_emojiCount s - hits (isEmoji s) (allBodies s ≫= parts))
    (set_world_bodies
       (removeHits (isEmoji s) (world_bodies s) (allBodies s ≫= parts)) s).
Proof. rewrite ClearAllEmojis_sweep. apply sweep_spec, isEmoji_stable. Qed.

Lemma remove_first_sublist r l : remove_first r l `sublist_of` l.
Proof.
  induction l as [|x l IH]; simpl; [done|].
  destruct (Nat.eqb x r); [by apply sublist_cons | by apply sublist_skip].
Qed.

Lemma removeHits_sublist sel0 ps w : removeHits sel0 w ps `sublist_of` w.
Proof.
  unfold removeHits. revert w. induction ps as [|p ps IH]; intros w; simpl; [done|].
  etrans; [apply IH|]. destruct (sel0 p); [apply remove_first_sublist | done].
Qed.

Lemma wf_sublist s s' :
  heap s' = heap s → nextId s' = nextId s → _bigBallId s' = _bigBallId s →
  world_bodies s' `sublist_of` world_bodies s →
  wf s → wf s'.
Proof.
  intros Hh Hn Hb Hw [H1 H2 H3]. split.
  - apply (heap_ok_shape s); [intros r; by rewrite Hh | done..].
  - intros r Hr. rewrite Hh. apply H2. by eapply elem_of_sublist.
  - by eapply sublist_NoDup.
Qed.

Lemma wf_afterRender s : wf s → wf (afterRender s).
Proof.
  intros Hwf. rewrite afterRender_spec.
  apply (wf_sublist s); [done.. | apply removeHits_sublist | done].
Qed.

Lemma wf_ClearAllEmojis s : wf s → wf (ClearAllEmojis s).
Proof.
  intros Hwf. rewrite ClearAllEmojis_spec.
  apply (wf_sublist s); [done.. | apply removeHits_sublist | done].
Qed.

(** ** The handlers and the engine keep the invariant *)

Lemma wf_shape s s' :
  (∀ r, shape <$> heap s' !! r = shape <$> heap s !! r) →
  nextId s' = nextId s → _bigBallId s' = _bigBallId s →
  world_bodies s' = world_bodies s →
  wf s → wf s'.
Proof.
  intros Hh Hn Hb Hw [H1 H2 H3]. split.
  - by apply (heap_ok_shape s).
  - intros r Hr. rewrite Hw in Hr. apply H2 in Hr.
    apply (fmap_is_Some shape). rewrite Hh. by apply fmap_is_Some.
  - by rewrite Hw.
Qed.

Lemma foldl_alter_shape (f : Body → Body) l (h : gmap nat Body) r :
  (∀ b, shape (f b) = shape b) →
  shape <$> foldl (fun h r => alter f r h) h l !! r = shape <$> h !! r.
Proof.
  intros Hf. revert h. induction l as [|x l IH]; intros h; simpl; [done|].
  rewrite IH, lookup_alter. case_decide as Hd; [subst|done].
  destruct (h !! r); simpl; [by rewrite Hf | done].
Qed.

Lemma wf_Engine_update motion s : wf s → wf (Engine_update motion s).
Proof.
  apply wf_shape; [|done..]. intros r. unfold Engine_update; simpl.
  apply foldl_alter_shape, shape_moveBody.
Qed.

Lemma wf_beforeUpdate s : wf s → wf (beforeUpdate s).
Proof.
  intros Hwf. unfold beforeUpdate.
  destruct (_bigBall s) as [ref|]; [|done].
  destruct (heap s !! ref) as [ball|] eqn:E; [|done].
  case_match.
  - apply (wf_shape s); [|done..]. intros r. simpl.
    rewrite lookup_insert. case_decide; [subst|done]. by rewrite E.
  - by apply (wf_same s).
Qed.

Lemma wf_img_onload k s : wf s → wf (img_onload k s).
Proof.
  intros Hwf. unfold img_onload.
  destruct (pendingImages s !! k) as [len|]; [|done].
  eapply (wf_add_body s _
            (Bodies_circle (RenderWidth s / 2) (len + BIG_BALL_RADIUS) BIG_BALL_RADIUS
               false (Some butterflyUrl) BySwingingBall (nextId s)));
    [done | by cbv | simpl; lia | | reflexivity | reflexivity | by right].
  intros i Hi. by apply elem_of_nil in Hi.
Qed.

Lemma wf_img_onerror k s : wf s → wf (img_onerror k s).
Proof.
  intros Hwf. unfold img_onerror.
  destruct (pendingImages s !! k); [|done]. by apply (wf_same s).
Qed.

Lemma wf_set_Dimensions t w h rnd s : wf s → wf (set_Dimensions t w h rnd s).
Proof. intros Hwf. apply wf_Init. by apply (wf_same s). Qed.

Lemma wf_fresh t w h : wf (fresh t w h).
Proof.
  split; [split|..]; simpl.
  - intros r b E. by rewrite lookup_empty in E.
  - intros r b i E. by rewrite lookup_empty in E.
  - lia.
  - intros r b E. by rewrite lookup_empty in E.
  - intros r Hr. by apply elem_of_nil in Hr.
  - constructor.
Qed.

Section Reachability.

Variable toDataURL : Canvas → string.

Lemma getEmojiTexture_frame emoji s :
  let s1 := (getEmojiTexture toDataURL emoji s).2 in
  heap s1 = heap s ∧ nextId s1 = nextId s ∧ world_bodies s1 = world_bodies s
  ∧ _bigBallId s1 = _bigBallId s ∧ _emojiCount s1 = _emojiCount s
  ∧ RenderWidth s1 = RenderWidth s ∧ RenderHeight s1 = RenderHeight s
  ∧ world_constraints s1 = world_constraints s.
Proof. unfold getEmojiTexture. by destruct (_emojiMap s !! emoji). Qed.

Lemma wf_CreateEmojiBall emoji rnd s :
  wf s → wf (CreateEmojiBall toDataURL emoji rnd s).2.
Proof.
  intros Hwf. unfold CreateEmojiBall.
  destruct (Z.leb MAX_EMOJIS (_emojiCount s)); [by apply (wf_same s)|].
  destruct (getEmojiTexture_frame emoji s) as (Hh & Hn & Hw & Hb & _).
  destruct (getEmojiTexture toDataURL emoji s) as [tex s1]; simpl in *.
  eapply (wf_add_body s _
            (Bodies_circle (RenderWidth s1 / 2 + (rnd * 2 - 1) * RenderWidth s1 / 50)%Q
               0 10 false (Some tex) ByCreateEmojiBall (nextId s)));
    [done | by cbv | simpl; lia | | simpl; by rewrite Hn, Hh
     | simpl; by rewrite Hn, Hw | left; by simpl].
  intros i Hi. by apply elem_of_nil in Hi.
Qed.

Lemma wf_step s e : wf s → wf (step toDataURL s e).
Proof.
  destruct e; simpl;
    auto using wf_CreateEmojiBall, wf_ClearAllEmojis, wf_Init, wf_set_Dimensions,
      wf_afterRender, wf_beforeUpdate, wf_Engine_update, wf_img_onload, wf_img_onerror.
Qed.

Lemma wf_run es s : wf s → wf (run toDataURL s es).
Proof.
  unfold run. revert s. induction es as [|e es IH]; intros s Hwf; simpl; [done|].
  by apply IH, wf_step.
Qed.

Lemma wf_construct t w h rnd : wf (construct t w h rnd).
Proof. apply wf_Init, wf_fresh. Qed.

End Reachability.

(** ** What a build adds to the world *)

Lemma wf_world_below s : wf s → world_below s.
Proof.
  intros [[H1 _ _ _] H2 _] r Hr. destruct (H2 _ Hr) as [b E].
  by destruct (H1 _ _ E) as (_ & ? & _).
Qed.

Lemma grows_trans Φ s1 s2 s3 : grows Φ s1 s2 → grows Φ s2 s3 → grows Φ s1 s3.
Proof.
  intros (Hn1 & Hh1 & r1 & Hw1 & Hf1) (Hn2 & Hh2 & r2 & Hw2 & Hf2).
  split_and!; [lia | intros r Hr; rewrite Hh2 by lia; by apply Hh1 |].
  exists (r1 ++ r2). split; [by rewrite Hw2, Hw1, app_assoc|].
  apply Forall_app. split.
  - eapply Forall_impl; [exact Hf1|]. intros r (Hr & b & E & Hb); simpl in *.
    split; [lia|]. exists b. split; [|done]. rewrite Hh2 by lia. done.
  - eapply Forall_impl; [exact Hf2|]. intros r (Hr & b & E & Hb); simpl in *.
    split; [lia|]. eauto.
Qed.

Lemma omap_agree {A B} (f g : A → option B) (l : list A) :
  (∀ x, x ∈ l → f x = g x) → omap f l = omap g l.
Proof.
  induction l as [|x l IH]; intros H; simpl; [done|].
  rewrite (H x) by apply list_elem_of_here.
  assert (Hl : omap f l = omap g l).
  { apply IH. intros y Hy. apply H. by apply list_elem_of_further. }
  destruct (g x); [f_equal|]; exact Hl.
Qed.

Lemma grows_allBodies Φ s s' :
  world_below s → grows Φ s s' →
  world_below s' ∧ ∃ bs, allBodies s' = allBodies s ++ bs ∧ Forall Φ bs.
Proof.
  intros Hb (Hn & Hh & rest & Hw & Hf). split.
  - intros r. rewrite Hw, elem_of_app. intros [Hr | Hr].
    + apply Hb in Hr. lia.
    + rewrite Forall_forall in Hf. destruct (Hf _ Hr) as [? _]. lia.
  - unfold allBodies. rewrite Hw, omap_app.
    rewrite (omap_agree (fun r => heap s' !! r) (fun r => heap s !! r) (world_bodies s))
      by (intros r Hr; apply Hh; by apply Hb).
    exists (omap (fun r => heap s' !! r) rest). split; [done|].
    clear Hw. induction rest as [|r rest IH]; simpl; [constructor|].
    inversion Hf as [|? ? (_ & b & E & Hb') Hrest]; subst.
    rewrite E. constructor; [done | by apply IH].
Qed.

Lemma grows_resolves Φ s s' :
  world_below s → grows Φ s s' →
  (∀ r, r ∈ world_bodies s → is_Some (heap s !! r)) →
  ∀ r, r ∈ world_bodies s' → is_Some (heap s' !! r).
Proof.
  intros Hb (Hn & Hh & rest & Hw & Hf) Hres r. rewrite Hw, elem_of_app.
  intros [Hr | Hr].
  - rewrite Hh by (by apply Hb). by apply Hres.
  - rewrite Forall_forall in Hf. destruct (Hf _ Hr) as (_ & b & E & _). eauto.
Qed.

Lemma grows_add_body Φ s s' b i :
  Φ b → (nextId s ≤ i < nextId s')%nat →
  heap s' = <[i := b]> (heap s) →
  world_bodies s' = world_bodies s ++ [i] →
  grows Φ s s'.
Proof.
  intros Hb Hi Hh Hw. split_and!; [lia | |].
  - intros r Hr. rewrite Hh. apply lookup_insert_ne. lia.
  - exists [i]. split; [done|]. constructor; [|constructor].
    split; [done|]. exists b. by rewrite Hh, lookup_insert_eq.
Qed.

Lemma grows_alloc Φ mks s s' :
  Forall (fun mk => ∀ i, Φ (mk i)) mks →
  heap s' = alloc_heap (nextId s) mks (heap s) →
  nextId s' = (nextId s + length mks)%nat →
  world_bodies s' = world_bodies s ++ seq (nextId s) (length mks) →
  grows Φ s s'.
Proof.
  intros Hg Hh Hn Hw. split_and!; [lia | |].
  - intros r Hr. rewrite Hh. by apply alloc_heap_lookup_lt.
  - exists (seq (nextId s) (length mks)). split; [done|].
    apply Forall_forall. intros r [Hr1 Hr2]%elem_of_seq. split; [lia|].
    destruct (lookup_lt_is_Some_2 mks (r - nextId s)) as [mk E]; [lia|].
    exists (mk r). split.
    + rewrite Hh. replace r with (nextId s + (r - nextId s))%nat at 1 2 by lia.
      by apply alloc_heap_lookup_new.
    + rewrite Forall_forall in Hg. apply Hg. by eapply list_elem_of_lookup_2.
Qed.

Lemma grows_createPegs radius spacing s :
  grows (ofLayout Pegs) s (createPegs radius spacing s).
Proof.
  unfold createPegs. rewrite Body_create_all_eq.
  apply (grows_alloc _ (pegs radius spacing s)); [|reflexivity..].
  unfold pegs. apply Forall_flat_map, Forall_forall. intros row _.
  apply Forall_flat_map, Forall_forall. intros col _.
  destruct (_ || _); [|constructor]. by repeat constructor.
Qed.

Lemma grows_createSlats s : grows (ofLayout Slats) s (createSlats s).
Proof.
  unfold createSlats. rewrite Body_create_all_eq.
  apply (grows_alloc _ (slats s)); [|reflexivity..].
  unfold slats. apply Forall_map, Forall_forall. intros i _ n.
  by destruct (Nat.even i).
Qed.

Lemma grows_createPaddlewheel x y radius len s :
  grows (ofLayout Paddlewheels) s (createPaddlewheel x y radius len s).
Proof.
  eapply (grows_add_body _ s _ _ (nextId s + 5));
    [| simpl; lia | reflexivity | reflexivity]. done.
Qed.

Lemma grows_createPaddle x y len s :
  grows (ofLayout Paddles) s (createPaddle x y len s).
Proof.
  eapply (grows_add_body _ s _ _ (nextId s));
    [| simpl; lia | reflexivity | reflexivity]. done.
Qed.

(** The world right after [Init]: the two boundaries, then the bodies of
    the layout chosen by [rnd], all of them created by this call. *)
Lemma Init_structure rnd s :
  ∃ top bottom obstacles,
    allBodies (Init rnd s) = top :: bottom :: obstacles
    ∧ isBoundary top ∧ isBoundary bottom
    ∧ Forall (ofLayout (chooseLayout rnd)) obstacles
    ∧ world_below (Init rnd s)
    ∧ Forall (fun r => (nextId s ≤ r)%nat) (world_bodies (Init rnd s))
    ∧ (∀ r, r ∈ world_bodies (Init rnd s) → is_Some (heap (Init rnd s) !! r)).
Proof.
  unfold Init. rewrite Body_create_all_eq.
  set (s2 := World_add_bodies _ _).
  set (top := Bodies_rectangle (RenderWidth (World_clear s) / 2) (-10)
                (RenderWidth (World_clear s)) 20 true ByInitBoundary (nextId s)).
  set (bottom := Bodies_rectangle (RenderWidth (World_clear s) / 2)
                   (RenderHeight (World_clear s) - _bottomBorderOffset)
                   (RenderWidth (World_clear s) * (8 # 10)) _bottomBorderHeight
                   true ByInitBoundary (S (nextId s))).
  assert (Hall : allBodies s2 = [top; bottom]).
  { unfold allBodies; simpl. rewrite lookup_insert_ne by lia.
    by rewrite !lookup_insert_eq. }
  assert (Hbelow : world_below s2).
  { intros r; simpl. rewrite !elem_of_cons, elem_of_nil. lia. }
  assert (Hnew : Forall (fun r => (nextId s ≤ r)%nat) (world_bodies s2)).
  { simpl. repeat constructor. }
  assert (Hn2 : (nextId s ≤ nextId s2)%nat) by (simpl; lia).
  assert (Hres : ∀ r, r ∈ world_bodies s2 → is_Some (heap s2 !! r)).
  { intros r; simpl. rewrite !elem_of_cons, elem_of_nil.
    intros [-> | [-> | []]]; [rewrite lookup_insert_ne by lia|];
      rewrite lookup_insert_eq; eauto. }
  clearbody s2.
  match goal with |- context [addSwingingBall ?x] => set (s3 := x) end.
  assert (Hg : grows (ofLayout (chooseLayout rnd)) s2 s3).
  { unfold s3, chooseLayout. repeat case_match; simplify_eq;
      first [ apply grows_createPegs | apply grows_createSlats
            | (eapply grows_trans; apply grows_createPaddlewheel)
            | (eapply grows_trans; apply grows_createPaddle) ]. }
  clearbody s3.
  destruct (grows_allBodies _ _ _ Hbelow Hg) as (Hb3 & bs & Hbs & Hf).
  exists top, bottom, bs.
  split_and!; [| done | done | done | exact Hb3 | |].
  - change (allBodies (addSwingingBall s3)) with (allBodies s3). by rewrite Hbs, Hall.
  - change (world_bodies (addSwingingBall s3)) with (world_bodies s3).
    destruct Hg as (_ & _ & rest & -> & Hrest). apply Forall_app. split; [done|].
    eapply Forall_impl; [exact Hrest|]. intros r (Hr & _); simpl in *. lia.
  - exact (grows_resolves _ _ _ Hbelow Hg Hres).
Qed.

(** [Init] touches the world, the heap, the id counter and the pending
    images, and nothing else. *)
Lemma Init_frame rnd s :
  _emojiCount (Init rnd s) = _emojiCount s
  ∧ _emojiMap (Init rnd s) = _emojiMap s
  ∧ _sharedCanvas (Init rnd s) = _sharedCanvas s
  ∧ rasterized (Init rnd s) = rasterized s
  ∧ _bigBall (Init rnd s) = _bigBall s
  ∧ _bigBallId (Init rnd s) = _bigBallId s
  ∧ _swingDirection (Init rnd s) = _swingDirection s
  ∧ RenderWidth (Init rnd s) = RenderWidth s
  ∧ RenderHeight (Init rnd s) = RenderHeight s
  ∧ console (Init rnd s) = console s
  ∧ ∃ len, pendingImages (Init rnd s) = pendingImages s ++ [len].
Proof.
  unfold Init. rewrite Body_create_all_eq.
  destruct (Qle_bool rnd (1 # 4)); [|destruct (Qle_bool rnd (1 # 2));
    [|destruct (Qle_bool rnd (3 # 4))]];
    unfold createPegs, createSlats; rewrite ?Body_create_all_eq; simpl;
    split_and!; try done; eauto.
Qed.

Lemma filter_none {A} (P : A → Prop) `{∀ x, Decision (P x)} (l : list A) :
  Forall (fun x => ¬ P x) l → filter P l = [].
Proof.
  induction 1 as [|x l Hx Hl IH]; [done|]. by rewrite filter_cons_False.
Qed.

Lemma Init_no_transient rnd s :
  liveEmojis (Init rnd s) = [] ∧ pendulums (Init rnd s) = [].
Proof.
  destruct (Init_structure rnd s) as (top & bottom & obs & Hall & Ht & Hb & Ho & _ & _ & _).
  unfold liveEmojis, pendulums. rewrite Hall.
  assert (Hf : Forall (fun b => madeBy (core b) ≠ ByCreateEmojiBall
                                ∧ madeBy (core b) ≠ BySwingingBall)
                      (top :: bottom :: obs)).
  { repeat constructor; try congruence.
    eapply Forall_impl; [exact Ho|]. unfold ofLayout. intros b ->. done. }
  split; apply filter_none; (eapply Forall_impl; [exact Hf|]); by intros b [? ?].
Qed.

Lemma add_body_allBodies s s' b i :
  world_below s → (nextId s ≤ i)%nat →
  heap s' = <[i := b]> (heap s) →
  world_bodies s' = world_bodies s ++ [i] →
  allBodies s' = allBodies s ++ [b].
Proof.
  intros Hb Hi Hh Hw. unfold allBodies. rewrite Hw, omap_app, Hh. f_equal.
  - apply omap_agree. intros r Hr. apply Hb in Hr. apply lookup_insert_ne. lia.
  - simpl. by rewrite lookup_insert_eq.
Qed.

Section Population.

Variable toDataURL : Canvas → string.

Lemma CreateEmojiBall_reject emoji rnd (s : EmojiPhysics) :
  (MAX_EMOJIS ≤ _emojiCount s)%Z →
  CreateEmojiBall toDataURL emoji rnd s =
  (None, set_console (console s ++ ["Max emoji count exceeded..."]) s).
Proof.
  intros H. unfold CreateEmojiBall.
  by destruct (Z.leb_spec MAX_EMOJIS (_emojiCount s)); [|lia].
Qed.

Lemma CreateEmojiBall_accept emoji rnd (s : EmojiPhysics) :
  world_below s → (_emojiCount s < MAX_EMOJIS)%Z →
  let r := CreateEmojiBall toDataURL emoji rnd s in
  r.1 = Some (nextId s)
  ∧ (∃ ball, allBodies r.2 = allBodies s ++ [ball]
             ∧ madeBy (core ball) = ByCreateEmojiBall)
  ∧ _emojiCount r.2 = (_emojiCount s + 1)%Z
  ∧ world_below r.2.
Proof.
  intros Hb Hc. unfold CreateEmojiBall.
  destruct (Z.leb_spec MAX_EMOJIS (_emojiCount s)); [lia|].
  destruct (getEmojiTexture_frame toDataURL emoji s)
    as (Hh & Hn & Hw & _ & Hcnt & _).
  destruct (getEmojiTexture toDataURL emoji s) as [tex s1]; simpl in *.
  rewrite Hn, Hcnt. split_and!; [done | | done |].
  - eexists. split.
    + apply (add_body_allBodies s _ _ (nextId s)); simpl;
        [done | lia | by rewrite Hh | by rewrite Hw].
    + reflexivity.
  - intros r; simpl. rewrite Hw, elem_of_app, list_elem_of_singleton.
    intros [Hr | ->]; [apply Hb in Hr|]; lia.
Qed.

Lemma liveCount_snoc s s' ball :
  allBodies s' = allBodies s ++ [ball] →
  madeBy (core ball) = ByCreateEmojiBall →
  liveCount s' = (liveCount s + 1)%Z.
Proof.
  intros Ha Hm. unfold liveCount, liveEmojis. rewrite Ha, filter_app.
  rewrite (filter_cons_True _ ball []) by done.
  rewrite length_app. simpl. lia.
Qed.

(** A run of calls from a state whose counter reads [c] accepts as many
    calls as fit under the cap, and no more. *)
Lemma spawn_many calls s :
  world_below s →
  let s' := run toDataURL s (spawns calls) in
  let k := Z.min (Z.of_nat (length calls)) (Z.max 0 (MAX_EMOJIS - _emojiCount s)) in
  world_below s' ∧ liveCount s' = (liveCount s + k)%Z
  ∧ _emojiCount s' = (_emojiCount s + k)%Z.
Proof.
  revert s. induction calls as [|[emoji rnd] calls IH]; intros s Hb.
  - simpl. split_and!; [done | lia | lia].
  - change (run toDataURL s (spawns ((emoji, rnd) :: calls)))
      with (run toDataURL (CreateEmojiBall toDataURL emoji rnd s).2 (spawns calls)).
    destruct (Z.lt_ge_cases (_emojiCount s) MAX_EMOJIS) as [Hlt | Hge].
    + destruct (CreateEmojiBall_accept emoji rnd s Hb Hlt)
        as (_ & (ball & Ha & Hm) & Hc & Hb').
      destruct (IH _ Hb') as (H1 & H2 & H3). simpl in *.
      rewrite (liveCount_snoc _ _ _ Ha Hm), Hc in *.
      split_and!; [done | lia | lia].
    + rewrite (CreateEmojiBall_reject emoji rnd s Hge).
      set (s1 := set_console _ s).
      destruct (IH s1 Hb) as (H1 & H2 & H3).
      change (liveCount s1) with (liveCount s) in H2.
      change (_emojiCount s1) with (_emojiCount s) in H2, H3.
      cbn [snd]. simpl length. split_and!; [done | lia | lia].
Qed.

(** The counter never passes the cap, whatever the events. *)
Lemma step_counter_le s ev :
  (_emojiCount s ≤ MAX_EMOJIS)%Z →
  (_emojiCount (step toDataURL s ev) ≤ MAX_EMOJIS)%Z.
Proof.
  intros H. destruct ev; unfold step.
  - unfold CreateEmojiBall.
    destruct (Z.leb_spec MAX_EMOJIS (_emojiCount s)); [done|].
    destruct (getEmojiTexture_frame toDataURL emoji s) as (_ & _ & _ & _ & Hc & _).
    destruct (getEmojiTexture toDataURL emoji s) as [tex s1]; simpl in *. lia.
  - rewrite ClearAllEmojis_spec. simpl. unfold hits. lia.
  - by rewrite (proj1 (Init_frame rnd s)).
  - unfold set_Dimensions. by rewrite (proj1 (Init_frame rnd _)).
  - rewrite afterRender_spec. simpl. unfold hits. lia.
  - unfold beforeUpdate. repeat case_match; done.
  - done.
  - unfold img_onload. by case_match.
  - unfold img_onerror. by case_match.
Qed.

Lemma run_counter_le es s :
  (_emojiCount s ≤ MAX_EMOJIS)%Z →
  (_emojiCount (run toDataURL s es) ≤ MAX_EMOJIS)%Z.
Proof.
  unfold run. revert s. induction es as [|ev es IH]; intros s H; simpl; [done|].
  by apply IH, step_counter_le.
Qed.

End Population.

(** * The population cap *)

(** X16.  Right after construction, with nothing but [CreateEmojiBall]
    calls (no frame rendered, no clear, no load in between), the number of
    emoji balls in the world is at most [MAX_EMOJIS] and the counter
    equals it; and in any state a call made while the counter is at the
    cap returns [undefined] normally, creates no body (the heap and the id
    counter are unchanged), adds nothing to the world and leaves the
    counter unchanged. *)
Theorem population_bound (toDataURL : Canvas → string) :
  (∀ t w h rnd0 (calls : list (string * Q)),
     let s := run toDataURL (construct t w h rnd0) (spawns calls) in
     (liveCount s ≤ MAX_EMOJIS)%Z ∧ liveCount s = _emojiCount s)
  ∧ (∀ (s : EmojiPhysics) (emoji : string) (rnd : Q),
       (MAX_EMOJIS ≤ _emojiCount s)%Z →
       let r := CreateEmojiBall toDataURL emoji rnd s in
       r.1 = None
       ∧ heap r.2 = heap s ∧ nextId r.2 = nextId s
       ∧ world_bodies r.2 = world_bodies s
       ∧ world_constraints r.2 = world_constraints s
       ∧ allBodies r.2 = allBodies s
       ∧ _emojiCount r.2 = _emojiCount s).
Proof.
  split.
  - intros t w h rnd0 calls s.
    assert (Hb : world_below (construct t w h rnd0)).
    { apply wf_world_below, wf_construct. }
    destruct (spawn_many toDataURL calls _ Hb) as (_ & Hl & Hc). fold s in Hl, Hc.
    assert (H0 : liveCount (construct t w h rnd0) = 0%Z).
    { unfold liveCount, construct.
      by rewrite (proj1 (Init_no_transient rnd0 (fresh t w h))). }
    assert (H1 : _emojiCount (construct t w h rnd0) = 0%Z).
    { unfold construct. by rewrite (proj1 (Init_frame rnd0 (fresh t w h))). }
    rewrite H0 in Hl. rewrite H1 in Hc. unfold MAX_EMOJIS in *. lia.
  - intros s emoji rnd Hcap r. unfold r.
    by rewrite (CreateEmojiBall_reject toDataURL emoji rnd s Hcap).
Qed.

(** * Rebuilding the world *)



Lemma img_onload_pendulum k s len :
  world_below s → pendingImages s !! k = Some len →
  ∃ ball, allBodies (img_onload k s) = allBodies s ++ [ball]
          ∧ madeBy (core ball) = BySwingingBall
          ∧ texture (core ball) = Some butterflyUrl
          ∧ _bigBall (img_onload k s) = Some (id (core ball))
          ∧ _bigBallId (img_onload k s) = id (core ball).
Proof.
  intros Hb E. unfold img_onload. rewrite E. eexists. split_and!.
  - by apply (add_body_allBodies s _ _ (nextId s)); [| simpl; lia |..].
  - done.
  - done.
  - done.
  - done.
Qed.

Lemma Init_pending rnd s :
  pendingImages (Init rnd s)
  = pendingImages s
    ++ [(RenderHeight s - _bottomBorderOffset - _bottomBorderHeight / 2
         - BIG_BALL_RADIUS - 5)%Q].
Proof.
  unfold Init. rewrite Body_create_all_eq.
  destruct (Qle_bool rnd (1 # 4)); [|destruct (Qle_bool rnd (1 # 2));
    [|destruct (Qle_bool rnd (3 # 4))]];
    unfold createPegs, createSlats; rewrite ?Body_create_all_eq; done.
Qed.




Lemma quincunx_600 :
  quincunx (Z.to_nat (Math_round (600 / 75)))
           (Z.to_nat (Math_round (600 / (3333 # 100)))) = 72%nat.
Proof. vm_compute. reflexivity. Qed.












(** * The counter across a rebuild *)

(** C10.  [Init] and the [Dimensions] setter leave [_emojiCount] as it
    was while no emoji ball is left in the world.  From a counter reading
    [N], the calls accepted after the rebuild are at most
    [MAX_EMOJIS - N]: once that many balls are live every further call is
    rejected, with the live population [N] below the cap. *)
Theorem Init_keeps_counter (toDataURL : Canvas → string) (rnd : Q)
    (s : EmojiPhysics) (N : Z) :
  _emojiCount s = N → (0 ≤ N ≤ MAX_EMOJIS)%Z →
  (_emojiCount (Init rnd s) = N ∧ liveCount (Init rnd s) = 0%Z)
  ∧ (∀ t w h, _emojiCount (set_Dimensions t w h rnd s) = N
              ∧ liveCount (set_Dimensions t w h rnd s) = 0%Z)
  ∧ (∀ calls : list (string * Q),
       let s' := run toDataURL (Init rnd s) (spawns calls) in
       liveCount s' = Z.min (Z.of_nat (length calls)) (MAX_EMOJIS - N)
       ∧ _emojiCount s' = (N + liveCount s')%Z
       ∧ ∀ (emoji : string) (r : Q), (MAX_EMOJIS - N ≤ Z.of_nat (length calls))%Z →
           (CreateEmojiBall toDataURL emoji r s').1 = None
           ∧ liveCount s' = (MAX_EMOJIS - N)%Z).
Proof.
  intros HN Hr.
  assert (Hgen : ∀ s0, _emojiCount s0 = N →
            _emojiCount (Init rnd s0) = N ∧ liveCount (Init rnd s0) = 0%Z).
  { intros s0 H0. split; [by rewrite (proj1 (Init_frame rnd s0))|].
    unfold liveCount. by rewrite (proj1 (Init_no_transient rnd s0)). }
  destruct (Hgen s HN) as [Hc Hl].
  split_and!; [done | done | intros t w h; by apply Hgen |].
  intros calls s'.
  destruct (Init_structure rnd s) as (_ & _ & _ & _ & _ & _ & _ & Hbel & _).
  destruct (spawn_many toDataURL calls _ Hbel) as (_ & H1 & H2).
  fold s' in H1, H2. rewrite Hl in H1. rewrite Hc in H1, H2.
  split_and!; [lia | lia |].
  intros emoji r Hlen. split; [|lia].
  rewrite (CreateEmojiBall_reject toDataURL emoji r s'); [done | lia].
Qed.

(** * The cleanup pass *)

Lemma elem_of_remove_first r x l :
  NoDup l → x ∈ remove_first r l ↔ x ∈ l ∧ x ≠ r.
Proof.
  induction 1 as [|x0 l Hx0 Hl IH]; simpl.
  - rewrite elem_of_nil. tauto.
  - destruct (Nat.eqb_spec x0 r) as [-> | Hne]; rewrite !elem_of_cons.
    + split; [|tauto]. intros Hx. split; [tauto|]. by intros ->.
    + rewrite IH. split; [|tauto]. intros [-> | [? ?]]; tauto.
Qed.

Lemma elem_of_removeHits sel0 ps w x :
  NoDup w →
  x ∈ removeHits sel0 w ps ↔ x ∈ w ∧ ¬ ∃ p, p ∈ ps ∧ sel0 p = true ∧ id p = x.
Proof.
  unfold removeHits. revert w. induction ps as [|p ps IH]; intros w Hw; simpl.
  - split; [|tauto]. intros Hx. split; [done|]. intros (p & Hp & _).
    by apply elem_of_nil in Hp.
  - destruct (sel0 p) eqn:Ep.
    + rewrite IH by (eapply sublist_NoDup; [exact Hw | apply remove_first_sublist]).
      rewrite elem_of_remove_first by done. split.
      * intros [[Hx Hne] Hno]. split; [done|]. intros (q & [-> | Hq]%elem_of_cons & Hs & Hi);
          [done | apply Hno; eauto].
      * intros [Hx Hno]. split_and!; [done | |].
        -- intros ->. apply Hno. exists p. split_and!; [apply list_elem_of_here | done..].
        -- intros (q & Hq & Hs & Hi). apply Hno. exists q.
           split_and!; [by apply list_elem_of_further | done..].
    + rewrite IH by done. split; intros [Hx Hno]; (split; [done|]).
      * intros (q & [-> | Hq]%elem_of_cons & Hs & Hi); [congruence | apply Hno; eauto].
      * intros (q & Hq & Hs & Hi). apply Hno. exists q.
        split_and!; [by apply list_elem_of_further | done..].
Qed.

(** In a well-formed world the only part with the id of a body of the
    world is that body itself. *)
Lemma hit_is_core sel0 s r b :
  wf s → r ∈ world_bodies s → heap s !! r = Some b →
  (∃ p, p ∈ allBodies s ≫= parts ∧ sel0 p = true ∧ id p = r) ↔ sel0 (core b) = true.
Proof.
  intros [[H1 H2 _ _] _ _] Hr E. split.
  - intros (p & Hp & Hs & Hi).
    apply list_elem_of_bind in Hp as (b' & Hp & Hb').
    apply list_elem_of_omap in Hb' as (r' & Hr' & E').
    apply elem_of_cons in Hp as [-> | Hp].
    + destruct (H1 _ _ E') as (Hid & _). rewrite Hid in Hi. subst r'.
      rewrite E in E'. by simplify_eq.
    + assert (Hin : id p ∈ id <$> subparts b') by (by apply list_elem_of_fmap_2).
      destruct (H2 _ _ _ E' Hin) as [_ Hnone]. rewrite Hi, E in Hnone. done.
  - intros Hs. exists (core b). split_and!; [| done | by destruct (H1 _ _ E)].
    apply list_elem_of_bind. exists b. split; [apply list_elem_of_here|].
    apply list_elem_of_omap. eauto.
Qed.

Lemma outOfBounds_iff s p :
  outOfBounds s p = true ↔
  (RenderHeight s < vy (position p) ∨ vx (position p) < 0
   ∨ RenderWidth s < vx (position p))%Q.
Proof.
  unfold outOfBounds, Qgtb, Qltb.
  rewrite !orb_true_iff, !negb_true_iff.
  assert (Hn : ∀ a b : Q, Qle_bool a b = false ↔ (b < a)%Q).
  { intros a b. rewrite <- not_true_iff_false, Qle_bool_iff.
    split; [apply Qnot_le_lt | apply Qlt_not_le]. }
  rewrite !Hn. tauto.
Qed.

(** Which bodies of a well-formed world a cleanup pass takes out. *)
Lemma afterRender_keeps s r b :
  wf s → r ∈ world_bodies s → heap s !! r = Some b →
  r ∈ world_bodies (afterRender s) ↔ cleanupHit s (core b) = false.
Proof.
  intros Hwf Hr E. rewrite afterRender_spec. simpl.
  rewrite elem_of_removeHits by apply Hwf.
  rewrite (hit_is_core (cleanupHit s) s r b Hwf Hr E).
  destruct (cleanupHit s (core b)); split; try done; tauto.
Qed.

(** X15.  In a well-formed world, the cleanup pass takes an emoji ball
    out of the world exactly when its position is strictly below the
    bottom edge, strictly left of the left edge or strictly right of the
    right edge; the body whose id is [_bigBallId], the boundaries and the
    bodies of the obstacle layouts stay in the world wherever they are;
    and no body is altered. *)
Theorem cleanup_correct (s : EmojiPhysics) (r : nat) (b : Body) :
  wf s → r ∈ world_bodies s → heap s !! r = Some b →
  (madeBy (core b) = ByCreateEmojiBall →
     (r ∉ world_bodies (afterRender s) ↔
      (RenderHeight s < vy (position (core b)) ∨ vx (position (core b)) < 0
       ∨ RenderWidth s < vx (position (core b)))%Q))
  ∧ (r = _bigBallId s → r ∈ world_bodies (afterRender s))
  ∧ (isBoundary b ∨ (∃ l, ofLayout l b) → r ∈ world_bodies (afterRender s))
  ∧ heap (afterRender s) = heap s.
Proof.
  intros Hwf Hr E. pose proof (afterRender_keeps s r b Hwf Hr E) as Hk.
  destruct Hwf as [[H1 _ _ H4] _ _]. destruct (H1 _ _ E) as (Hid & _ & Ht).
  split_and!.
  - intros Hm. rewrite Hk, <- outOfBounds_iff.
    unfold typed in Ht. rewrite Hm in Ht. destruct Ht as [Hc _].
    assert (He : isEmoji s (core b) = true).
    { unfold isEmoji. fold (circleLike (core b)). rewrite Hc, Hid. simpl.
      apply negb_true_iff, Nat.eqb_neq. by eapply H4. }
    unfold cleanupHit. rewrite He. simpl.
    destruct (outOfBounds s (core b)); split; try done; tauto.
  - intros Hb. apply Hk. unfold cleanupHit, isEmoji.
    rewrite Hid, Hb, Nat.eqb_refl. simpl. by rewrite !andb_false_r.
  - intros Hfix. apply Hk. unfold cleanupHit, isEmoji. fold (circleLike (core b)).
    assert (Hc : circleLike (core b) = false).
    { unfold typed, isBoundary, ofLayout in *.
      destruct Hfix as [Hm | [l Hm]]; by rewrite Hm in Ht. }
    by rewrite Hc.
  - by rewrite afterRender_spec.
Qed.

(** * The pendulum's image *)

(** C8 (asset load failure), as the code has it.  When the image of the
    pendulum fails to load after construction, the failure is logged and
    the simulation goes on with the world as [Init] left it: no pendulum
    body and no constraint for it are ever created, [_bigBall] stays
    unset, and the swing handler does nothing. *)
Theorem asset_load_failure (t w h rnd : Q) :
  let s0 := construct t w h rnd in
  let s := img_onerror 0 s0 in
  console s = ["Failed to load the SVG image:"]
  ∧ world_bodies s = world_bodies s0 ∧ heap s = heap s0
  ∧ world_constraints s = world_constraints s0
  ∧ pendulums s = [] ∧ _bigBall s = None ∧ pendingImages s = []
  ∧ beforeUpdate s = s.
Proof.
  intros s0 s.
  destruct (Init_frame rnd (fresh t w h))
    as (_ & _ & _ & _ & Hbig & _ & _ & _ & _ & Hcon & len & Hpend).
  pose proof (proj2 (Init_no_transient rnd (fresh t w h))) as Hpen.
  fold (construct t w h rnd) in Hbig, Hcon, Hpend, Hpen.
  fold s0 in Hbig, Hcon, Hpend, Hpen.
  change (_bigBall s0 = None) in Hbig.
  change (console s0 = []) in Hcon.
  change (pendingImages s0 = [len]) in Hpend.
  unfold s. clearbody s0. clear s.
  unfold img_onerror. rewrite Hpend. simpl. rewrite Hcon.
  split_and!; try done.
  unfold beforeUpdate. simpl. by rewrite Hbig.
Qed.


(** * The texture cache *)

Section Textures.

Variable toDataURL : Canvas → string.

Lemma sweep_emojiMap sel s ps : _emojiMap (sweep sel s ps) = _emojiMap s.
Proof.
  unfold sweep. revert s. induction ps as [|p ps IH]; intros s; simpl; [done|].
  rewrite IH. by destruct (sel s p).
Qed.

Lemma step_emojiMap s ev emoji t :
  _emojiMap s !! emoji = Some t →
  _emojiMap (step toDataURL s ev) !! emoji = Some t.
Proof.
  intros E. destruct ev; unfold step.
  - unfold CreateEmojiBall. destruct (Z.leb MAX_EMOJIS (_emojiCount s)); [done|].
    unfold getEmojiTexture. destruct (_emojiMap s !! emoji0) eqn:E0; simpl; [done|].
    rewrite lookup_insert_ne; [done|]. intros ->. congruence.
  - by rewrite ClearAllEmojis_sweep, sweep_emojiMap.
  - by rewrite (proj1 (proj2 (Init_frame rnd s))).
  - unfold set_Dimensions. by rewrite (proj1 (proj2 (Init_frame rnd _))).
  - by rewrite afterRender_sweep, sweep_emojiMap.
  - unfold beforeUpdate. repeat case_match; done.
  - done.
  - unfold img_onload. by case_match.
  - unfold img_onerror. by case_match.
Qed.

Lemma run_emojiMap es s emoji t :
  _emojiMap s !! emoji = Some t →
  _emojiMap (run toDataURL s es) !! emoji = Some t.
Proof.
  unfold run. revert s. induction es as [|ev es IH]; intros s E; simpl; [done|].
  by apply IH, step_emojiMap.
Qed.

(** C9 (texture cache).  A call of [getEmojiTexture] for a symbol that is
    not cached draws the symbol on the shared canvas (one more [fillText]),
    returns the data URL of the canvas and stores it under the symbol; a
    call for a cached symbol returns the stored handle and changes nothing;
    whatever happens between two calls for the same symbol, the second
    returns the handle of the first with no work; and no event removes or
    replaces an entry. *)
Theorem texture_cache :
  (∀ (s : EmojiPhysics) (emoji : string),
     _emojiMap s !! emoji = None →
     let r := getEmojiTexture toDataURL emoji s in
     rasterized r.2 = rasterized s ++ [emoji]
     ∧ _emojiMap r.2 = <[emoji := r.1]> (_emojiMap s)
     ∧ ∃ c, _sharedCanvas r.2 = Some c
            ∧ drawn c = [(emoji, (cwidth c / 2)%Q, (cheight c / 2)%Q)]
            ∧ r.1 = toDataURL c)
  ∧ (∀ (s : EmojiPhysics) (emoji t : string),
       _emojiMap s !! emoji = Some t →
       getEmojiTexture toDataURL emoji s = (t, s))
  ∧ (∀ (s : EmojiPhysics) (emoji : string) (es : list Event),
       let r := getEmojiTexture toDataURL emoji s in
       let s2 := run toDataURL r.2 es in
       getEmojiTexture toDataURL emoji s2 = (r.1, s2))
  ∧ (∀ (s : EmojiPhysics) (ev : Event) (emoji t : string),
       _emojiMap s !! emoji = Some t →
       _emojiMap (step toDataURL s ev) !! emoji = Some t).
Proof.
  assert (Hhit : ∀ (s : EmojiPhysics) (emoji t : string),
            _emojiMap s !! emoji = Some t →
            getEmojiTexture toDataURL emoji s = (t, s)).
  { intros s emoji t E. unfold getEmojiTexture. by rewrite E. }
  split_and!.
  - intros s emoji E r. unfold r, getEmojiTexture. rewrite E. simpl.
    split_and!; [done | done |]. eexists. split_and!; [reflexivity | | reflexivity].
    by destruct (_sharedCanvas s).
  - exact Hhit.
  - intros s emoji es r s2. apply Hhit. unfold s2. apply run_emojiMap.
    unfold r, getEmojiTexture. destruct (_emojiMap s !! emoji) eqn:E; simpl; [done|].
    apply lookup_insert_eq.
  - intros s ev emoji t. apply step_emojiMap.
Qed.

End Textures.

(** * The swing *)

Lemma beforeUpdate_direction s ref ball :
  _bigBall s = Some ref → heap s !! ref = Some ball →
  _swingDirection (beforeUpdate s)
  = nextSwingDirection (swingAngle s ball) (_swingDirection s).
Proof.
  intros Eb Eh. unfold beforeUpdate. rewrite Eb, Eh. by case_match.
Qed.

Lemma beforeUpdate_idle s :
  (_bigBall s = None ∨ ∃ ref, _bigBall s = Some ref ∧ heap s !! ref = None) →
  beforeUpdate s = s.
Proof.
  unfold beforeUpdate. intros [-> | (ref & -> & ->)]; done.
Qed.

Lemma nextSwingDirection_cases angle d :
  (d = (-1)%Z ∧ (Rabs angle > PI * (7 / 10))%R ∧ nextSwingDirection angle d = 1%Z)
  ∨ (d = 1%Z ∧ (Rabs angle < PI * (3 / 10))%R ∧ nextSwingDirection angle d = (-1)%Z)
  ∨ (nextSwingDirection angle d = d
     ∧ ¬ (d = (-1)%Z ∧ (Rabs angle > PI * (7 / 10))%R)
     ∧ ¬ (d = 1%Z ∧ (Rabs angle < PI * (3 / 10))%R)).
Proof.
  unfold nextSwingDirection.
  destruct (Z.eqb_spec d (-1)) as [Hd1 | Hd1];
    destruct (Z.eqb_spec d 1) as [Hd2 | Hd2];
    repeat case_bool_decide; simpl;
    first [ left; split_and!; first [done | lia]
          | right; left; split_and!; first [done | lia]
          | right; right; split_and!;
            [done | intros [? ?]; first [lia | lra].. ] ].
Qed.

Section Swing.

Variable toDataURL : Canvas → string.

Lemma step_swingDirection s ev :
  ev ≠ EvBeforeUpdate →
  _swingDirection (step toDataURL s ev) = _swingDirection s.
Proof.
  intros Hev. destruct ev; unfold step; try done.
  - unfold CreateEmojiBall. destruct (Z.leb MAX_EMOJIS (_emojiCount s)); [done|].
    unfold getEmojiTexture. by destruct (_emojiMap s !! emoji).
  - by rewrite ClearAllEmojis_spec.
  - by rewrite (proj1 (proj2 (proj2 (proj2 (proj2 (proj2 (proj2 (Init_frame rnd s)))))))).
  - unfold set_Dimensions.
    by rewrite (proj1 (proj2 (proj2 (proj2 (proj2 (proj2 (proj2 (Init_frame rnd _)))))))).
  - by rewrite afterRender_spec.
  - unfold img_onload. by case_match.
  - unfold img_onerror. by case_match.
Qed.

(** C6 (direction of the swing), as the code has it.  [θ] is
    [Math.atan2(dy, dx)] of the vector from the anchor [(width / 2, 0)] to
    the big ball, measured from the positive x axis ([π/2] when the ball
    hangs straight down, [π] when it is level with the anchor on its
    left).  A tick changes the direction only from -1 to 1 when
    [|θ| > 0.7π], or from 1 to -1 when [|θ| < 0.3π]; in both cases it
    does change it; and nothing but the tick handler changes the
    direction. *)
Theorem swing_direction (s : EmojiPhysics) :
  let d := _swingDirection s in
  let d' := _swingDirection (beforeUpdate s) in
  let angle (ball : Body) :=
    Math_atan2 (Q2R (vy (position (core ball)) - 0))
               (Q2R (vx (position (core ball)) - RenderWidth s / 2)) in
  (d' ≠ d →
   ∃ ref ball, _bigBall s = Some ref ∧ heap s !! ref = Some ball ∧
     let θ := angle ball in
     (d = (-1)%Z ∧ d' = 1%Z ∧ (Rabs θ > PI * (7 / 10))%R)
     ∨ (d = 1%Z ∧ d' = (-1)%Z ∧ (Rabs θ < PI * (3 / 10))%R))
  ∧ (∀ ref ball, _bigBall s = Some ref → heap s !! ref = Some ball →
       let θ := angle ball in
       (d = (-1)%Z → (Rabs θ > PI * (7 / 10))%R → d' = 1%Z)
       ∧ (d = 1%Z → (Rabs θ < PI * (3 / 10))%R → d' = (-1)%Z))
  ∧ (∀ ev, ev ≠ EvBeforeUpdate → _swingDirection (step toDataURL s ev) = d).
Proof.
  intros d d' angle.
  assert (Hangle : ∀ ball, angle ball = swingAngle s ball) by reflexivity.
  clearbody angle. split_and!.
  - intros Hne. destruct (_bigBall s) as [ref|] eqn:Eb.
    2:{ exfalso. apply Hne. unfold d'. rewrite beforeUpdate_idle; [done | by left]. }
    destruct (heap s !! ref) as [ball|] eqn:Eh.
    2:{ exfalso. apply Hne. unfold d'. rewrite beforeUpdate_idle; [done | right; eauto]. }
    exists ref, ball. split_and!; [done..|]. intros θ.
    unfold d' in *. rewrite (beforeUpdate_direction s ref ball Eb Eh) in *.
    rewrite <- Hangle in *. fold θ in Hne |- *.
    destruct (nextSwingDirection_cases θ d) as [(? & ? & ?) | [(? & ? & ?) | (? & _)]];
      [left | right | done]; by split_and!.
  - intros ref ball Eb Eh θ. unfold d'.
    rewrite (beforeUpdate_direction s ref ball Eb Eh), <- Hangle. fold θ.
    destruct (nextSwingDirection_cases θ d) as [(? & ? & ?) | [(? & ? & ?) | (? & Hn1 & Hn2)]];
      split; intros; try done; try lia; exfalso; tauto.
  - intros ev Hev. by apply step_swingDirection.
Qed.

End Swing.

(** C7 (force of the swing), as the code has it.  [θ] is
    [Math.atan2(dy, dx)] of the vector from the anchor to the big ball,
    measured from the positive x axis ([π/2] when the ball hangs straight
    down), and [d] the direction after the tick's reversal test.  Once the
    big ball is set, a tick adds the force [(d * 50, 0)] to it exactly
    when ([d = 1] and [|θ| < π/2]) or ([d = -1] and [|θ| > π/2]); the force
    acts at the ball's own position, so the torque is unchanged; otherwise
    no body is touched. *)
Theorem swing_force (s : EmojiPhysics) (ref : nat) (ball : Body) :
  _bigBall s = Some ref → heap s !! ref = Some ball →
  let θ := swingAngle s ball in
  let d := _swingDirection (beforeUpdate s) in
  let pushes := (d = 1%Z ∧ (Rabs θ < PI / 2)%R) ∨ (d = (-1)%Z ∧ (Rabs θ > PI / 2)%R) in
  (pushes →
   ∃ ball', heap (beforeUpdate s) !! ref = Some ball'
     ∧ force (core ball')
       = mkVector (vx (force (core ball)) + inject_Z d * _swingForce)%Q
                  (vy (force (core ball)) + 0)%Q
     ∧ (torque (core ball') == torque (core ball))%Q
     ∧ position (core ball') = position (core ball))
  ∧ (¬ pushes → heap (beforeUpdate s) = heap s)
  ∧ (∀ r, r ≠ ref → heap (beforeUpdate s) !! r = heap s !! r).
Proof.
  intros Eb Eh θ d pushes.
  assert (Hd : d = nextSwingDirection θ (_swingDirection s)).
  { apply (beforeUpdate_direction s ref ball Eb Eh). }
  assert (Hp : swingPushes θ d = true ↔ pushes).
  { unfold swingPushes, pushes.
    rewrite orb_true_iff, !andb_true_iff, !Z.eqb_eq, !bool_decide_eq_true. done. }
  clearbody d. unfold beforeUpdate. rewrite Eb, Eh. fold θ. simpl. rewrite <- Hd.
  destruct (swingPushes θ d) eqn:Es.
  - split_and!.
    + intros _. eexists. split; [simpl; apply lookup_insert_eq|].
      simpl. split_and!; [done | | done]. ring.
    + intros Hn. exfalso. apply Hn, Hp. done.
    + intros r Hr. simpl. by apply lookup_insert_ne.
  - split_and!; [| done | done].
    intros Hpush. apply Hp in Hpush. congruence.
Qed.

(** * Evaluating the angle *)

Lemma Math_atan2_left (y x : Q) :
  (y == 0)%Q → (x < 0)%Q → Math_atan2 (Q2R y) (Q2R x) = PI.
Proof.
  intros Hy Hx. apply Qeq_eqR in Hy. apply Qlt_Rlt in Hx.
  rewrite RMicromega.Q2R_0 in Hy, Hx. rewrite Hy. unfold Math_atan2.
  repeat case_decide; try lra.
  unfold Rdiv. rewrite Rmult_0_l, atan_0. lra.
Qed.

Lemma Math_atan2_down (y x : Q) :
  (x == 0)%Q → (0 < y)%Q → Math_atan2 (Q2R y) (Q2R x) = (PI / 2)%R.
Proof.
  intros Hx Hy. apply Qeq_eqR in Hx. apply Qlt_Rlt in Hy.
  rewrite RMicromega.Q2R_0 in Hy, Hx. rewrite Hx. unfold Math_atan2.
  repeat case_decide; lra.
Qed.

Lemma Math_atan2_up (y x : Q) :
  (x == 0)%Q → (y < 0)%Q → Math_atan2 (Q2R y) (Q2R x) = (- (PI / 2))%R.
Proof.
  intros Hx Hy. apply Qeq_eqR in Hx. apply Qlt_Rlt in Hy.
  rewrite RMicromega.Q2R_0 in Hx, Hy. rewrite Hx. unfold Math_atan2.
  repeat case_decide; try lra.
Qed.

Lemma Math_atan2_zero (y x : Q) :
  (y == 0)%Q → (0 < x)%Q → Math_atan2 (Q2R y) (Q2R x) = 0%R.
Proof.
  intros Hy Hx. apply Qeq_eqR in Hy. apply Qlt_Rlt in Hx.
  rewrite RMicromega.Q2R_0 in Hy, Hx. rewrite Hy. unfold Math_atan2.
  repeat case_decide; try lra.
  unfold Rdiv. by rewrite Rmult_0_l, atan_0.
Qed.

Lemma nextSwingDirection_PI : nextSwingDirection PI (-1) = 1%Z.
Proof.
  unfold nextSwingDirection. pose proof PI_RGT_0.
  rewrite bool_decide_eq_true_2; [done|]. rewrite Rabs_right; lra.
Qed.

Lemma swingPushes_PI : swingPushes PI 1 = false.
Proof.
  unfold swingPushes. pose proof PI_RGT_0. simpl.
  rewrite bool_decide_eq_false_2; [done|]. rewrite Rabs_right; lra.
Qed.

Lemma nextSwingDirection_PI2 : nextSwingDirection (PI / 2) 1 = 1%Z.
Proof.
  unfold nextSwingDirection. pose proof PI_RGT_0. simpl.
  rewrite andb_false_r.
  rewrite (bool_decide_eq_false_2 (Rabs (PI / 2) < PI * (3 / 10))%R); [done|].
  rewrite Rabs_right; lra.
Qed.

Lemma nextSwingDirection_PI2_neg : nextSwingDirection (PI / 2) (-1) = (-1)%Z.
Proof.
  unfold nextSwingDirection. pose proof PI_RGT_0. simpl.
  rewrite andb_false_r, andb_true_r.
  rewrite (bool_decide_eq_false_2 (Rabs (PI / 2) > PI * (7 / 10))%R); [done|].
  rewrite Rabs_right; lra.
Qed.

Lemma swingPushes_PI2 d : swingPushes (PI / 2) d = false.
Proof.
  unfold swingPushes. pose proof PI_RGT_0.
  rewrite !bool_decide_eq_false_2; [by rewrite !andb_false_r | |];
    rewrite Rabs_right; lra.
Qed.

(** * Concrete runs *)

Example wheelWorld_bodies :
  world_bodies wheelWorld = [1; 2; 8; 15]%nat
  ∧ (id <$> (allBodies wheelWorld ≫= parts))
    = [1; 2; 8; 3; 4; 5; 6; 7; 15; 10; 11; 12; 13; 14]%nat
  ∧ filter (isEmoji wheelWorld) (allBodies wheelWorld ≫= parts)
    = [circlePart (1000 / 2 + 250 / 2 - 10 - 0 / 2)%Q ((600 - 50 * 2) / 2 - 100)%Q 20 false
                  None (ByLayout Paddlewheels) 3;
       circlePart (1000 / 2 - 250 / 2 + 10)%Q ((600 - 50 * 2) / 2)%Q 50 false
                  None (ByLayout Paddlewheels) 10].
Proof. vm_compute. done. Qed.

(** C2 (counter exactness) fails on the code.  In the paddlewheel world
    the central circle of each wheel is a non-static part labelled
    "Circle Body", so [ClearAllEmojis] counts it as an emoji ball:
    [World.remove] does nothing for it, as a part is not an element of the
    world, and the counter is decremented all the same.  After
    construction and one [ClearAllEmojis] the counter reads -2 with no
    emoji ball in the world, and the world is as it was. *)
Theorem ClearAllEmojis_miscounts :
  let s := ClearAllEmojis wheelWorld in
  _emojiCount wheelWorld = 0%Z ∧ liveCount wheelWorld = 0%Z
  ∧ _emojiCount s = (-2)%Z ∧ liveCount s = 0%Z
  ∧ world_bodies s = world_bodies wheelWorld.
Proof. vm_compute. done. Qed.

(** C3 (range of the counter) fails on the code for the same reason: one
    ball is spawned and everything is cleared, and the counter is
    negative. *)
Theorem counter_goes_negative :
  let s := run exampleDataURL wheelWorld
             [EvImgLoad 0; EvCreateEmojiBall "a" (1 # 2); EvClearAllEmojis] in
  _emojiCount s = (-2)%Z ∧ ¬ (0 ≤ _emojiCount s)%Z.
Proof. vm_compute. split; [done | by intros H]. Qed.

Lemma narrowWorld_counter :
  _emojiCount narrowWorld = (-2)%Z ∧ liveCount narrowWorld = 0%Z.
Proof. vm_compute. done. Qed.

(** C1 (population bound) fails.  In a container 200 wide the hubs of the
    two paddlewheels lie outside the left and right edges, so the first
    rendered frame takes the counter to -2 with no ball in the world;
    1002 [CreateEmojiBall] calls are then accepted, and 1002 emoji balls
    are in the world when the counter reaches [MAX_EMOJIS]. *)
Theorem population_exceeds_cap :
  liveCount overfullWorld = 1002%Z ∧ (MAX_EMOJIS < liveCount overfullWorld)%Z
  ∧ _emojiCount overfullWorld = MAX_EMOJIS.
Proof.
  assert (Hwf : wf narrowWorld) by apply wf_run, wf_construct.
  pose proof (spawn_many exampleDataURL (replicate 1002 ("a", 1 # 2)) narrowWorld
                (wf_world_below _ Hwf)) as H.
  cbv zeta in H. destruct H as (_ & Hl & Hc).
  destruct narrowWorld_counter as [H1 H2].
  rewrite H2 in Hl. rewrite H1 in Hc. rewrite length_replicate in Hl, Hc.
  unfold overfullWorld. rewrite Hl, Hc. unfold MAX_EMOJIS. split_and!; lia.
Qed.

(** C4 (cleanup) fails for the pendulum.  After a resize before the first
    image has loaded, both loads complete into the rebuilt world: it holds
    two pendulum bodies, and [_bigBallId] is the id of the second.  The
    first one, hung for the height of 600, lies below the bottom edge of
    the container of height 400: the cleanup pass takes it out of the
    world and decrements the counter, which reads -1. *)
Theorem cleanup_removes_pendulum :
  let s := stalePendulumWorld in
  (fun b => (id (core b), madeBy (core b), position (core b))) <$> pendulums s
  = [(49%nat, BySwingingBall, mkVector (1000 # 2) (1130 # 2));
     (51%nat, BySwingingBall, mkVector (1000 # 2) (730 # 2))]
  ∧ RenderHeight s = 400%Q ∧ _bigBallId s = 51%nat ∧ _emojiCount s = 0%Z
  ∧ (id ∘ core) <$> pendulums (afterRender s) = [51%nat]
  ∧ bool_decide (49%nat ∈ world_bodies s) = true
  ∧ bool_decide (49%nat ∈ world_bodies (afterRender s)) = false
  ∧ _emojiCount (afterRender s) = (-1)%Z.
Proof. vm_compute. done. Qed.

Lemma wf_wheelWorld : wf wheelWorld.
Proof. apply wf_construct. Qed.

Lemma wheelWorld_counter : _emojiCount wheelWorld = 0%Z ∧ liveCount wheelWorld = 0%Z.
Proof. vm_compute. done. Qed.

Lemma fullWorld_counter : _emojiCount fullWorld = MAX_EMOJIS.
Proof.
  pose proof (spawn_many exampleDataURL (replicate 1000 ("a", 1 # 2)) wheelWorld
                (wf_world_below _ wf_wheelWorld)) as H.
  cbv zeta in H. destruct H as (_ & _ & Hc).
  unfold fullWorld. rewrite Hc.
  rewrite (proj1 wheelWorld_counter), length_replicate.
  unfold MAX_EMOJIS. lia.
Qed.

Lemma population_bound_witness :
  (MAX_EMOJIS ≤ _emojiCount fullWorld)%Z
  ∧ (CreateEmojiBall exampleDataURL "b" (1 # 2) fullWorld).1 = None.
Proof.
  assert (H : (MAX_EMOJIS ≤ _emojiCount fullWorld)%Z).
  { rewrite fullWorld_counter. lia. }
  split; [exact H|].
  exact (proj1 (proj2 (population_bound exampleDataURL) fullWorld "b" (1 # 2) H)).
Defined.

Lemma fallenWorld_ball :
  world_bodies fallenWorld = [1; 2; 8; 15; 17; 19]%nat
  ∧ heap fallenWorld !! 19%nat = Some fallenBall.
Proof. vm_compute. done. Qed.

Lemma cleanup_correct_witness : 19%nat ∉ world_bodies (afterRender fallenWorld).
Proof.
  destruct fallenWorld_ball as [Hw Hb].
  assert (Hwf : wf fallenWorld) by apply wf_run, wf_wheelWorld.
  assert (Hr : 19%nat ∈ world_bodies fallenWorld).
  { rewrite Hw. rewrite !elem_of_cons. tauto. }
  apply (proj1 (cleanup_correct fallenWorld 19 fallenBall Hwf Hr Hb) eq_refl).
  left. reflexivity.
Defined.


(** C8, as stated, fails: after the image has failed to load the failure
    is logged and no body made by [addSwingingBall] is in the world. *)
Lemma no_pendulum_after_load_failure :
  let s := img_onerror 0 wheelWorld in
  console s = ["Failed to load the SVG image:"]
  ∧ ¬ ∃ b, b ∈ allBodies s ∧ madeBy (core b) = BySwingingBall.
Proof.
  assert (H : console (img_onerror 0 wheelWorld) = ["Failed to load the SVG image:"]
              ∧ pendulums (img_onerror 0 wheelWorld) = []).
  { vm_compute. done. }
  destruct H as [Hc Hp]. split; [exact Hc|]. intros (b & Hb & Hm).
  assert (Hin : b ∈ pendulums (img_onerror 0 wheelWorld)).
  { unfold pendulums. apply list_elem_of_filter. by split. }
  rewrite Hp in Hin. by apply elem_of_nil in Hin.
Qed.

Lemma texture_cache_witness :
  let s := (getEmojiTexture exampleDataURL "a" wheelWorld).2 in
  getEmojiTexture exampleDataURL "a" s = ("data:image/png;glyph=a", s).
Proof.
  intros s.
  assert (H : _emojiMap s !! "a" = Some "data:image/png;glyph=a").
  { vm_compute. reflexivity. }
  exact (proj1 (proj2 (texture_cache exampleDataURL)) s "a" _ H).
Defined.

Lemma Init_keeps_counter_witness :
  _emojiCount (Init (1 # 10) threeBalls) = 3%Z
  ∧ liveCount (Init (1 # 10) threeBalls) = 0%Z.
Proof.
  assert (H : _emojiCount threeBalls = 3%Z) by (vm_compute; reflexivity).
  assert (Hr : (0 ≤ 3 ≤ MAX_EMOJIS)%Z) by (unfold MAX_EMOJIS; lia).
  exact (proj1 (Init_keeps_counter exampleDataURL (1 # 10) threeBalls 3 H Hr)).
Defined.

Lemma leftWorld_facts :
  _bigBall leftWorld = Some 17%nat ∧ heap leftWorld !! 17%nat = Some leftBall
  ∧ _swingDirection leftWorld = (-1)%Z ∧ RenderWidth leftWorld = 1000%Q.
Proof. vm_compute. done. Qed.

Lemma leftWorld_angle : swingAngle leftWorld leftBall = PI.
Proof.
  destruct leftWorld_facts as (_ & _ & _ & Hw).
  change (swingAngle leftWorld leftBall)
    with (Math_atan2 (Q2R (0 - 0)) (Q2R (400 - RenderWidth leftWorld / 2))).
  rewrite Hw. by apply Math_atan2_left.
Qed.

Lemma beforeUpdate_leftWorld : beforeUpdate leftWorld = set__swingDirection 1 leftWorld.
Proof.
  destruct leftWorld_facts as (Hb & Hh & Hd & _).
  unfold beforeUpdate. rewrite Hb, Hh, leftWorld_angle, Hd, nextSwingDirection_PI.
  change (_swingDirection (set__swingDirection 1 leftWorld)) with 1%Z.
  by rewrite swingPushes_PI.
Qed.

Lemma swing_direction_witness :
  _swingDirection leftWorld = (-1)%Z
  ∧ _swingDirection (beforeUpdate leftWorld) = 1%Z
  ∧ ∃ ref ball, _bigBall leftWorld = Some ref ∧ heap leftWorld !! ref = Some ball
      ∧ (Rabs (swingAngle leftWorld ball) > PI * (7 / 10))%R.
Proof.
  destruct leftWorld_facts as (_ & _ & Hd & _).
  assert (Hd' : _swingDirection (beforeUpdate leftWorld) = 1%Z).
  { by rewrite beforeUpdate_leftWorld. }
  assert (Hne : _swingDirection (beforeUpdate leftWorld) ≠ _swingDirection leftWorld).
  { rewrite Hd', Hd. done. }
  split_and!; [done | done |].
  destruct (proj1 (swing_direction exampleDataURL leftWorld) Hne)
    as (ref & ball & Hb & Hh & [(_ & _ & Ha) | (H1 & _)]).
  - by exists ref, ball.
  - exfalso. rewrite Hd in H1. done.
Defined.

Lemma swing_force_witness : heap (beforeUpdate leftWorld) = heap leftWorld.
Proof.
  destruct leftWorld_facts as (Hb & Hh & _).
  apply (proj1 (proj2 (swing_force leftWorld 17 leftBall Hb Hh))).
  rewrite leftWorld_angle, beforeUpdate_leftWorld.
  change (_swingDirection (set__swingDirection 1 leftWorld)) with 1%Z.
  pose proof PI_RGT_0. rewrite Rabs_right by lra.
  intros [[_ H1] | [H1 _]]; [lra | done].
Defined.

Lemma hangingWorld_eq :
  hangingWorld = Engine_update hangsDown (set__swingDirection 1 leftWorld).
Proof.
  change hangingWorld with (Engine_update hangsDown (beforeUpdate leftWorld)).
  by rewrite beforeUpdate_leftWorld.
Qed.

Lemma hangingWorld_facts :
  _bigBall hangingWorld = Some 17%nat
  ∧ heap hangingWorld !! 17%nat = Some hangingBall
  ∧ _swingDirection hangingWorld = 1%Z ∧ RenderWidth hangingWorld = 1000%Q.
Proof. rewrite hangingWorld_eq. vm_compute. done. Qed.

Lemma set__swingDirection_read d s :
  _swingDirection (set__swingDirection d s) = d
  ∧ heap (set__swingDirection d s) = heap s.
Proof. done. Qed.

Lemma loadedWorld_facts :
  _bigBall loadedWorld = Some 17%nat
  ∧ heap loadedWorld !! 17%nat = Some loadedBall
  ∧ _swingDirection loadedWorld = (-1)%Z ∧ RenderWidth loadedWorld = 1000%Q.
Proof. vm_compute. done. Qed.

(** C6, as stated, fails, whichever way the vertical is taken.  With the
    big ball level with the anchor on its left and direction -1, the angle
    measured from the vertical is a right angle, so [|θ| = π/2], which is
    not above [0.7π]; the handler's own angle is [π] and the tick flips
    the direction to 1. *)
Lemma swing_direction_from_vertical_fails :
  ∃ ref ball,
    _bigBall leftWorld = Some ref ∧ heap leftWorld !! ref = Some ball
    ∧ _swingDirection leftWorld = (-1)%Z
    ∧ _swingDirection (beforeUpdate leftWorld) = 1%Z
    ∧ Rabs (angleFromVertical leftWorld ball) = (PI / 2)%R
    ∧ Rabs (angleFromUpVertical leftWorld ball) = (PI / 2)%R
    ∧ ¬ (Rabs (angleFromVertical leftWorld ball) > PI * (7 / 10))%R
    ∧ ¬ (Rabs (angleFromUpVertical leftWorld ball) > PI * (7 / 10))%R.
Proof.
  destruct leftWorld_facts as (Hb & Hh & Hd & Hw).
  assert (Hv : angleFromVertical leftWorld leftBall = (- (PI / 2))%R).
  { change (angleFromVertical leftWorld leftBall)
      with (Math_atan2 (Q2R (400 - RenderWidth leftWorld / 2)) (Q2R (0 - 0))).
    rewrite Hw. by apply Math_atan2_up. }
  assert (Hu : angleFromUpVertical leftWorld leftBall = (- (PI / 2))%R).
  { change (angleFromUpVertical leftWorld leftBall)
      with (Math_atan2 (Q2R (400 - RenderWidth leftWorld / 2)) (Q2R (- (0 - 0)))).
    rewrite Hw. by apply Math_atan2_up. }
  exists 17%nat, leftBall. rewrite Hv, Hu, beforeUpdate_leftWorld.
  rewrite (proj1 (set__swingDirection_read 1 leftWorld)).
  pose proof PI_RGT_0 as Hpi.
  assert (Ha : Rabs (- (PI / 2)) = (PI / 2)%R).
  { rewrite Rabs_Ropp. apply Rabs_right. lra. }
  rewrite Ha. split; [exact Hb|]. split; [exact Hh|]. split; [exact Hd|].
  split; [reflexivity|]. split; [reflexivity|]. split; [reflexivity|].
  split; lra.
Qed.

(** C7, as stated, fails, whichever way the vertical is taken.  With the
    ball straight below the anchor and direction 1 the angle from the
    downward vertical is 0, so the specification has the force applied;
    with the ball straight below the anchor and direction -1 the angle
    from the upward vertical is π, so the specification has the force
    applied again; the handler applies none in either state. *)
Lemma swing_force_from_vertical_fails :
  (∃ ref ball,
     _bigBall hangingWorld = Some ref ∧ heap hangingWorld !! ref = Some ball
     ∧ angleFromVertical hangingWorld ball = 0%R
     ∧ _swingDirection (beforeUpdate hangingWorld) = 1%Z
     ∧ claimedPush (angleFromVertical hangingWorld ball)
                   (_swingDirection (beforeUpdate hangingWorld))
     ∧ heap (beforeUpdate hangingWorld) = heap hangingWorld)
  ∧ (∃ ref ball,
       _bigBall loadedWorld = Some ref ∧ heap loadedWorld !! ref = Some ball
       ∧ angleFromUpVertical loadedWorld ball = PI
       ∧ _swingDirection (beforeUpdate loadedWorld) = (-1)%Z
       ∧ claimedPush (angleFromUpVertical loadedWorld ball)
                     (_swingDirection (beforeUpdate loadedWorld))
       ∧ heap (beforeUpdate loadedWorld) = heap loadedWorld).
Proof.
  split.
  - destruct hangingWorld_facts as (Hb & Hh & Hd & Hw).
    assert (Hv : angleFromVertical hangingWorld hangingBall = 0%R).
    { change (angleFromVertical hangingWorld hangingBall)
        with (Math_atan2 (Q2R (500 - RenderWidth hangingWorld / 2)) (Q2R (100 - 0))).
      rewrite Hw. by apply Math_atan2_zero. }
    assert (Ha : swingAngle hangingWorld hangingBall = (PI / 2)%R).
    { change (swingAngle hangingWorld hangingBall)
        with (Math_atan2 (Q2R (100 - 0)) (Q2R (500 - RenderWidth hangingWorld / 2))).
      rewrite Hw. by apply Math_atan2_down. }
    assert (Hu : beforeUpdate hangingWorld = set__swingDirection 1 hangingWorld).
    { unfold beforeUpdate. rewrite Hb, Hh, Ha, Hd, nextSwingDirection_PI2.
      rewrite swingPushes_PI2. reflexivity. }
    exists 17%nat, hangingBall. rewrite Hu, Hv.
    rewrite (proj1 (set__swingDirection_read 1 hangingWorld)).
    rewrite (proj2 (set__swingDirection_read 1 hangingWorld)).
    split; [exact Hb|]. split; [exact Hh|]. do 2 (split; [reflexivity|]).
    split; [|reflexivity].
    left. split; [reflexivity|]. pose proof PI_RGT_0. rewrite Rabs_R0. lra.
  - destruct loadedWorld_facts as (Hb & Hh & Hd & Hw).
    assert (Hv : angleFromUpVertical loadedWorld loadedBall = PI).
    { change (angleFromUpVertical loadedWorld loadedBall)
        with (Math_atan2 (Q2R (1000 / 2 - RenderWidth loadedWorld / 2))
                         (Q2R (- (600 - 20 - 20 / 2 - 50 - 5 + 50 - 0)))).
      rewrite Hw. by apply Math_atan2_left. }
    assert (Ha : swingAngle loadedWorld loadedBall = (PI / 2)%R).
    { change (swingAngle loadedWorld loadedBall)
        with (Math_atan2 (Q2R (600 - 20 - 20 / 2 - 50 - 5 + 50 - 0))
                         (Q2R (1000 / 2 - RenderWidth loadedWorld / 2))).
      rewrite Hw. by apply Math_atan2_down. }
    assert (Hu : beforeUpdate loadedWorld = set__swingDirection (-1) loadedWorld).
    { unfold beforeUpdate. rewrite Hb, Hh, Ha, Hd, nextSwingDirection_PI2_neg.
      rewrite swingPushes_PI2. reflexivity. }
    exists 17%nat, loadedBall. rewrite Hu, Hv.
    rewrite (proj1 (set__swingDirection_read (-1) loadedWorld)).
    rewrite (proj2 (set__swingDirection_read (-1) loadedWorld)).
    split; [exact Hb|]. split; [exact Hh|]. do 2 (split; [reflexivity|]).
    split; [|reflexivity].
    right. split; [reflexivity|]. pose proof PI_RGT_0. rewrite Rabs_right; lra.
Qed.

(** * Further properties of the object *)

(** X1.  Every state the object can reach from its constructor is
    well-formed: the world lists each body once, every entry is a live
    body stored under its own id, the parts of a compound are not entries
    of the world, ids in use are below the id counter, and no emoji ball
    has the id [_bigBallId]. *)
Theorem reachable_wf (toDataURL : Canvas → string) (t w h rnd : Q) (es : list Event) :
  wf (run toDataURL (construct t w h rnd) es).
Proof. apply wf_run, wf_construct. Qed.

(** X2.  In every state the object can reach from its constructor the
    counter is at most [MAX_EMOJIS]. *)
Theorem counter_never_exceeds_cap (toDataURL : Canvas → string) (t w h rnd : Q)
    (es : list Event) :
  (_emojiCount (run toDataURL (construct t w h rnd) es) ≤ MAX_EMOJIS)%Z.
Proof.
  apply run_counter_le. unfold construct.
  rewrite (proj1 (Init_frame rnd (fresh t w h))). by vm_compute.
Qed.

Lemma ClearAllEmojis_keeps s r b :
  wf s → r ∈ world_bodies s → heap s !! r = Some b →
  r ∈ world_bodies (ClearAllEmojis s) ↔ isEmoji s (core b) = false.
Proof.
  intros Hwf Hr E. rewrite ClearAllEmojis_spec. simpl.
  rewrite elem_of_removeHits by apply Hwf.
  rewrite (hit_is_core (isEmoji s) s r b Hwf Hr E).
  destruct (isEmoji s (core b)); split; try done; tauto.
Qed.

Lemma wf_emoji_isEmoji s r b :
  wf s → heap s !! r = Some b → madeBy (core b) = ByCreateEmojiBall →
  isEmoji s (core b) = true ∧ subparts b = [].
Proof.
  intros [[H1 _ _ H4] _ _] E Hm. destruct (H1 _ _ E) as (Hid & _ & Ht).
  unfold typed in Ht. rewrite Hm in Ht. destruct Ht as [Hc Hs]. split.
  - unfold isEmoji. fold (circleLike (core b)). rewrite Hc, Hid. simpl.
    apply negb_true_iff, Nat.eqb_neq. by eapply H4.
  - by apply fmap_nil_inv in Hs.
Qed.

Lemma ClearAllEmojis_no_emoji s : wf s → liveEmojis (ClearAllEmojis s) = [].
Proof.
  intros Hwf.
  apply filter_none, Forall_forall. intros b Hb Hm.
  apply list_elem_of_omap in Hb as (r & Hr & E).
  assert (Hh : heap (ClearAllEmojis s) = heap s) by (by rewrite ClearAllEmojis_spec).
  rewrite Hh in E.
  assert (Hr0 : r ∈ world_bodies s).
  { rewrite ClearAllEmojis_spec in Hr. simpl in Hr.
    eapply elem_of_sublist; [exact Hr | apply removeHits_sublist]. }
  apply (ClearAllEmojis_keeps s r b Hwf Hr0 E) in Hr.
  destruct (wf_emoji_isEmoji s r b Hwf E Hm) as [He _]. congruence.
Qed.

(** X3.  In a well-formed world [ClearAllEmojis] takes every emoji ball
    out of the world, whatever its position; a body stays exactly when its
    own part fails the emoji test, so the body known as the big ball, the
    boundaries and the bodies of the layouts stay; no body is altered and
    no constraint is touched. *)
Theorem ClearAllEmojis_clears (s : EmojiPhysics) :
  wf s →
  liveEmojis (ClearAllEmojis s) = []
  ∧ (∀ r b, r ∈ world_bodies s → heap s !! r = Some b →
       (r ∈ world_bodies (ClearAllEmojis s) ↔ isEmoji s (core b) = false)
       ∧ (r = _bigBallId s ∨ isBoundary b ∨ (∃ l, ofLayout l b) →
          r ∈ world_bodies (ClearAllEmojis s)))
  ∧ heap (ClearAllEmojis s) = heap s
  ∧ world_constraints (ClearAllEmojis s) = world_constraints s.
Proof.
  intros Hwf. split_and!.
  - by apply ClearAllEmojis_no_emoji.
  - intros r b Hr E. pose proof (ClearAllEmojis_keeps s r b Hwf Hr E) as Hk.
    split; [exact Hk|]. intros Hcase. apply Hk.
    destruct Hwf as [[H1 _ _ _] _ _]. destruct (H1 _ _ E) as (Hid & _ & Ht).
    unfold isEmoji. fold (circleLike (core b)).
    destruct Hcase as [Hb | Hfix].
    + rewrite Hid, Hb, Nat.eqb_refl. simpl. by rewrite andb_false_r.
    + assert (Hc : circleLike (core b) = false).
      { unfold typed, isBoundary, ofLayout in *.
        destruct Hfix as [Hm | [l Hm]]; by rewrite Hm in Ht. }
      by rewrite Hc.
  - by rewrite ClearAllEmojis_spec.
  - by rewrite ClearAllEmojis_spec.
Qed.

(** ** The counter when nothing but emoji balls passes the emoji test *)

Lemma sublist_NoDup_filter (P : nat → Prop) `{∀ x, Decision (P x)} (l' l : list nat) :
  l' `sublist_of` l → NoDup l →
  (∀ x, x ∈ l' ↔ x ∈ l ∧ P x) → l' = filter P l.
Proof.
  induction 1 as [|x l1 l2 Hsub IH|x l1 l2 Hsub IH]; intros Hnd Hiff.
  - done.
  - apply NoDup_cons in Hnd as [Hx Hnd].
    assert (HP : P x) by (apply Hiff, list_elem_of_here).
    rewrite filter_cons_True by done. f_equal. apply IH; [done|].
    intros y. split.
    + intros Hy. assert (y ≠ x).
      { intros ->. apply Hx. by eapply elem_of_sublist. }
      destruct (proj1 (Hiff y) (list_elem_of_further _ _ _ Hy)) as [Hy2 HPy].
      apply elem_of_cons in Hy2 as [? | ?]; done.
    + intros [Hy HPy].
      pose proof (proj2 (Hiff y) (conj (list_elem_of_further _ _ _ Hy) HPy)) as Hz.
      apply elem_of_cons in Hz as [-> | ?]; done.
  - apply NoDup_cons in Hnd as [Hx Hnd].
    assert (HP : ¬ P x).
    { intros HPx. apply Hx. eapply elem_of_sublist; [|exact Hsub].
      apply Hiff. split; [apply list_elem_of_here | done]. }
    rewrite filter_cons_False by done. apply IH; [done|].
    intros y. split.
    + intros Hy. destruct (proj1 (Hiff y) Hy) as [Hy2 HPy].
      apply elem_of_cons in Hy2 as [-> | ?]; [|done].
      exfalso. apply Hx. by eapply elem_of_sublist.
    + intros [Hy HPy]. apply Hiff. split; [by apply list_elem_of_further | done].
Qed.

Lemma omap_filter_heap (h : gmap nat Body) (q : Body → bool) (w : list nat) :
  omap (fun r => h !! r)
       (filter (fun r => match h !! r with Some b => q b | None => true end = true) w)
  = filter (fun b => q b = true) (omap (fun r => h !! r) w).
Proof.
  induction w as [|r w IH]; [done|].
  destruct (h !! r) as [b|] eqn:E.
  - destruct (q b) eqn:Eq.
    + rewrite filter_cons_True by (by rewrite E). simpl. rewrite E.
      rewrite filter_cons_True by done. by f_equal.
    + rewrite filter_cons_False by (rewrite E; congruence). simpl. rewrite E.
      rewrite filter_cons_False by congruence. done.
  - rewrite filter_cons_True by (by rewrite E). simpl. by rewrite E.
Qed.

(** The bodies left by a pass, in a well-formed world: those whose own
    part was not selected. *)
Lemma removeHits_allBodies s sel0 :
  wf s →
  omap (fun r => heap s !! r)
       (removeHits sel0 (world_bodies s) (allBodies s ≫= parts))
  = filter (fun b => negb (sel0 (core b)) = true) (allBodies s).
Proof.
  intros Hwf. unfold allBodies at 2.
  rewrite <- (omap_filter_heap (heap s) (fun b => negb (sel0 (core b)))).
  f_equal. apply sublist_NoDup_filter;
    [apply removeHits_sublist | apply Hwf |].
  intros r. rewrite elem_of_removeHits by apply Hwf. split.
  - intros [Hr Hno]. split; [done|].
    destruct (heap s !! r) as [b|] eqn:E; [|done].
    rewrite (hit_is_core sel0 s r b Hwf Hr E) in Hno. by destruct (sel0 (core b)).
  - intros [Hr Hk]. split; [done|].
    destruct (wf_in s Hwf r Hr) as [b E]. rewrite E in Hk.
    rewrite (hit_is_core sel0 s r b Hwf Hr E). by destruct (sel0 (core b)).
Qed.

Lemma impostorFree_body s b :
  impostorFree s = true → b ∈ allBodies s →
  (isEmoji s (core b) = true → madeBy (core b) = ByCreateEmojiBall)
  ∧ ∀ p, p ∈ subparts b → isEmoji s p = false.
Proof.
  unfold impostorFree. rewrite forallb_forall. intros H Hb.
  apply list_elem_of_In, H in Hb.
  apply andb_true_iff in Hb as [H1 H2]. split.
  - intros He. rewrite He in H1. simpl in H1. by apply bool_decide_eq_true in H1.
  - intros p Hp. rewrite forallb_forall in H2.
    apply list_elem_of_In, H2 in Hp. by apply negb_true_iff.
Qed.

(** Without impostors a pass selects as many parts as it selects bodies. *)
Lemma hits_bodies s sel0 :
  impostorFree s = true → (∀ p, sel0 p = true → isEmoji s p = true) →
  hits sel0 (allBodies s ≫= parts)
  = Z.of_nat (length (filter (fun b => sel0 (core b) = true) (allBodies s))).
Proof.
  intros Hfree Hsel. unfold hits. f_equal.
  assert (Hb : ∀ b, b ∈ allBodies s → ∀ p, p ∈ subparts b → sel0 p = false).
  { intros b Hb p Hp. destruct (impostorFree_body s b Hfree Hb) as [_ H].
    apply H in Hp. destruct (sel0 p) eqn:E; [|done]. apply Hsel in E. congruence. }
  clear Hfree. induction (allBodies s) as [|b bs IH]; [done|].
  change ((b :: bs) ≫= parts) with ((core b :: subparts b) ++ (bs ≫= parts)).
  rewrite filter_app, length_app.
  rewrite IH by (intros b' Hb'; apply Hb; by apply list_elem_of_further).
  assert (Hsub : filter (fun p => sel0 p = true) (subparts b) = []).
  { apply filter_none, Forall_forall. intros p Hp.
    rewrite (Hb b (list_elem_of_here _ _) p Hp). done. }
  destruct (sel0 (core b)) eqn:E.
  - rewrite !filter_cons_True by done. rewrite Hsub. done.
  - rewrite !filter_cons_False by congruence. rewrite Hsub. done.
Qed.

Lemma live_split (sel0 : Part → bool) (bs : list Body) :
  (∀ b, b ∈ bs → sel0 (core b) = true → madeBy (core b) = ByCreateEmojiBall) →
  length (filter (fun b => madeBy (core b) = ByCreateEmojiBall) bs)
  = (length (filter (fun b => madeBy (core b) = ByCreateEmojiBall)
                    (filter (fun b => negb (sel0 (core b)) = true) bs))
     + length (filter (fun b => sel0 (core b) = true) bs))%nat.
Proof.
  induction bs as [|b bs IH]; intros H; [done|].
  assert (IH' := IH (fun b' Hb' => H b' (list_elem_of_further _ _ _ Hb'))).
  destruct (sel0 (core b)) eqn:E.
  - rewrite (filter_cons_True (fun b => sel0 (core b) = true)) by done.
    rewrite (filter_cons_False (fun b => negb (sel0 (core b)) = true))
      by (rewrite E; done).
    rewrite (filter_cons_True (fun b => madeBy (core b) = ByCreateEmojiBall))
      by (apply H; [apply list_elem_of_here | done]).
    simpl. lia.
  - rewrite (filter_cons_False (fun b => sel0 (core b) = true)) by congruence.
    rewrite (filter_cons_True (fun b => negb (sel0 (core b)) = true))
      by (rewrite E; done).
    destruct (decide (madeBy (core b) = ByCreateEmojiBall)) as [Hm | Hm].
    + rewrite !(filter_cons_True (fun b => madeBy (core b) = ByCreateEmojiBall))
        by done. simpl. lia.
    + rewrite !(filter_cons_False (fun b => madeBy (core b) = ByCreateEmojiBall))
        by done. lia.
Qed.

Lemma impostorFree_filter s s' (P : Body → Prop) `{∀ b, Decision (P b)} :
  _bigBallId s' = _bigBallId s →
  allBodies s' = filter P (allBodies s) →
  impostorFree s = true → impostorFree s' = true.
Proof.
  intros Hb Ha. unfold impostorFree. rewrite Ha, !forallb_forall.
  intros Hs b Hin. apply list_elem_of_In, list_elem_of_filter in Hin as [_ Hin].
  apply list_elem_of_In, Hs in Hin. unfold isEmoji in *. by rewrite Hb.
Qed.

Lemma filter_swap {A} (P Q : A → Prop) `{∀ x, Decision (P x)} `{∀ x, Decision (Q x)}
    (l : list A) :
  filter P (filter Q l) = filter Q (filter P l).
Proof.
  induction l as [|x l IH]; [done|].
  destruct (decide (P x)) as [HP | HP], (decide (Q x)) as [HQ | HQ].
  - rewrite (filter_cons_True Q), (filter_cons_True P x l) by done.
    rewrite (filter_cons_True P), (filter_cons_True Q) by done. by f_equal.
  - rewrite (filter_cons_False Q), (filter_cons_True P x l) by done.
    rewrite (filter_cons_False Q) by done. done.
  - rewrite (filter_cons_True Q), (filter_cons_False P x l) by done.
    rewrite (filter_cons_False P) by done. done.
  - rewrite (filter_cons_False Q), (filter_cons_False P x l) by done. done.
Qed.

(** What a pass does to the counter and to the population when nothing
    but emoji balls passes the emoji test. *)
Lemma sweep_exact s sel0 :
  wf s → impostorFree s = true → (∀ p, sel0 p = true → isEmoji s p = true) →
  let s' := set__emojiCount (_emojiCount s - hits sel0 (allBodies s ≫= parts))
              (set_world_bodies
                 (removeHits sel0 (world_bodies s) (allBodies s ≫= parts)) s) in
  (_emojiCount s - _emojiCount s' = liveCount s - liveCount s')%Z
  ∧ impostorFree s' = true
  ∧ liveEmojis s' = filter (fun b => negb (sel0 (core b)) = true) (liveEmojis s).
Proof.
  intros Hwf Hfree Hsel s'.
  assert (Ha : allBodies s' = filter (fun b => negb (sel0 (core b)) = true) (allBodies s)).
  { apply (removeHits_allBodies s sel0 Hwf). }
  split_and!.
  - unfold liveCount, liveEmojis. rewrite Ha. simpl.
    rewrite (hits_bodies s sel0 Hfree Hsel).
    rewrite (live_split sel0 (allBodies s)); [lia|].
    intros b Hb E. destruct (impostorFree_body s b Hfree Hb) as [H _].
    apply H, Hsel, E.
  - by apply (impostorFree_filter s s' _ eq_refl Ha).
  - unfold liveEmojis. rewrite Ha. apply filter_swap.
Qed.

Lemma foldl_alter_inv {A} (g : Body → A) (f : Body → Body) l (h : gmap nat Body) r :
  (∀ b, g (f b) = g b) →
  g <$> foldl (fun h r => alter f r h) h l !! r = g <$> h !! r.
Proof.
  intros Hf. revert h. induction l as [|x l IH]; intros h; simpl; [done|].
  rewrite IH, lookup_alter. case_decide as Hd; [subst|done].
  destruct (h !! r); simpl; [by rewrite Hf | done].
Qed.

Lemma bodyKind_moveBody motion b : bodyKind (moveBody motion b) = bodyKind b.
Proof.
  unfold bodyKind, moveBody; simpl.
  destruct (movePart_same motion (core b)) as (-> & -> & ->).
  f_equal. rewrite <- list_fmap_compose. apply list_fmap_ext. intros _ p _. simpl.
  by destruct (movePart_same motion p) as (-> & -> & _).
Qed.

Lemma bodyKind_inv b b' :
  bodyKind b' = bodyKind b →
  id (core b') = id (core b) ∧ circleLike (core b') = circleLike (core b)
  ∧ madeBy (core b') = madeBy (core b)
  ∧ (fun p => (id p, circleLike p)) <$> subparts b'
    = (fun p => (id p, circleLike p)) <$> subparts b.
Proof. unfold bodyKind. intros [= H1 H2 H3 H4]. done. Qed.

Lemma allBodies_kinds s s' :
  world_bodies s' = world_bodies s →
  (∀ r, bodyKind <$> heap s' !! r = bodyKind <$> heap s !! r) →
  bodyKind <$> allBodies s' = bodyKind <$> allBodies s.
Proof.
  intros Hw Hh. unfold allBodies. rewrite Hw, !list_fmap_omap.
  apply omap_agree. intros r _. apply Hh.
Qed.

Lemma isEmoji_kind s s' p p' :
  _bigBallId s' = _bigBallId s → id p' = id p → circleLike p' = circleLike p →
  isEmoji s' p' = isEmoji s p.
Proof.
  intros Hb Hi Hc. unfold isEmoji. fold (circleLike p') (circleLike p).
  by rewrite Hb, Hi, Hc.
Qed.

(** The population and the absence of impostors only depend on the kinds
    of the bodies in the world. *)
Lemma kinds_population s s' :
  bodyKind <$> allBodies s' = bodyKind <$> allBodies s →
  _bigBallId s' = _bigBallId s →
  liveCount s' = liveCount s ∧ impostorFree s' = impostorFree s.
Proof.
  intros Hk Hb. unfold liveCount, liveEmojis, impostorFree.
  revert Hk. generalize (allBodies s) as l. generalize (allBodies s') as l'.
  induction l' as [|b' l' IH]; intros [|b l] Hk; try done.
  rewrite !fmap_cons in Hk.
  assert (Hhd : bodyKind b' = bodyKind b) by congruence.
  assert (Htl : bodyKind <$> l' = bodyKind <$> l) by congruence.
  destruct (IH l Htl) as [IH1 IH2].
  destruct (bodyKind_inv _ _ Hhd) as (Hid & Hc & Hm & Hsub).
  split.
  - destruct (decide (madeBy (core b) = ByCreateEmojiBall)) as [E | E].
    + rewrite !filter_cons_True by congruence. simpl. lia.
    + rewrite !filter_cons_False by congruence. done.
  - simpl. rewrite IH2, Hm. rewrite (isEmoji_kind s s' (core b) (core b') Hb Hid Hc).
    do 2 f_equal.
    clear -Hsub Hb. revert Hsub. generalize (subparts b) as ps.
    generalize (subparts b') as ps'.
    induction ps' as [|p' ps' IHp]; intros [|p ps] Hsub; try done.
    rewrite !fmap_cons in Hsub.
    assert (Hi : id p' = id p) by congruence.
    assert (Hc : circleLike p' = circleLike p) by congruence.
    assert (Hrest : (fun p => (id p, circleLike p)) <$> ps'
                    = (fun p => (id p, circleLike p)) <$> ps) by congruence.
    simpl. by rewrite (IHp ps Hrest), (isEmoji_kind s s' p p' Hb Hi Hc).
Qed.

Section Exactness.

Variable toDataURL : Canvas → string.

(** What an accepted call leaves behind. *)
Lemma CreateEmojiBall_spawned emoji rnd (s : EmojiPhysics) :
  world_below s → (_emojiCount s < MAX_EMOJIS)%Z →
  let r := CreateEmojiBall toDataURL emoji rnd s in
  let tex := (getEmojiTexture toDataURL emoji s).1 in
  let ball := Bodies_circle (RenderWidth s / 2 + (rnd * 2 - 1) * RenderWidth s / 50)%Q
                0 10 false (Some tex) ByCreateEmojiBall (nextId s) in
  r.1 = Some (nextId s)
  ∧ allBodies r.2 = allBodies s ++ [ball]
  ∧ heap r.2 = <[nextId s := ball]> (heap s)
  ∧ world_bodies r.2 = world_bodies s ++ [nextId s]
  ∧ world_constraints r.2 = world_constraints s
  ∧ _emojiCount r.2 = (_emojiCount s + 1)%Z
  ∧ _bigBallId r.2 = _bigBallId s
  ∧ _emojiMap r.2 !! emoji = Some tex.
Proof.
  intros Hb Hc. unfold CreateEmojiBall.
  destruct (Z.leb_spec MAX_EMOJIS (_emojiCount s)); [lia|].
  destruct (getEmojiTexture_frame toDataURL emoji s)
    as (Hh & Hn & Hw & Hbig & Hcnt & HW & _ & Hcs).
  assert (Hmap : _emojiMap (getEmojiTexture toDataURL emoji s).2 !! emoji
                 = Some (getEmojiTexture toDataURL emoji s).1).
  { unfold getEmojiTexture. destruct (_emojiMap s !! emoji) eqn:E; simpl; [done|].
    apply lookup_insert_eq. }
  destruct (getEmojiTexture toDataURL emoji s) as [tex s1]; simpl in *.
  rewrite ?Hn, ?Hcnt, ?HW, ?Hh, ?Hw, ?Hbig, ?Hcs.
  split_and!; try done.
  apply (add_body_allBodies s _ _ (nextId s)); simpl;
    [done | lia | by rewrite ?Hh, ?Hn, ?HW | by rewrite ?Hw, ?Hn].
Qed.

Lemma step_exact s e :
  wf s → impostorFree s = true → _emojiCount s = liveCount s →
  populationEvent e = true →
  _emojiCount (step toDataURL s e) = liveCount (step toDataURL s e)
  ∧ impostorFree (step toDataURL s e) = true.
Proof.
  intros Hwf Hfree Hex He. destruct e; try discriminate He; unfold step.
  - destruct (Z.lt_ge_cases (_emojiCount s) MAX_EMOJIS) as [Hlt | Hge].
    + destruct (CreateEmojiBall_spawned emoji rnd s (wf_world_below _ Hwf) Hlt)
        as (_ & Ha & _ & _ & _ & Hc & Hb & _).
      split.
      * rewrite Hc, (liveCount_snoc s _ _ Ha eq_refl). lia.
      * unfold impostorFree in *. rewrite Ha, forallb_app, andb_true_iff. split.
        -- rewrite forallb_forall in *. intros b Hin. specialize (Hfree b Hin).
           unfold isEmoji in *. by rewrite Hb.
        -- simpl. by rewrite orb_true_r.
    + rewrite (CreateEmojiBall_reject toDataURL emoji rnd s Hge). done.
  - rewrite ClearAllEmojis_spec.
    destruct (sweep_exact s (isEmoji s) Hwf Hfree (fun p H => H)) as (H1 & H2 & _).
    split; [lia | done].
  - rewrite afterRender_spec.
    assert (Hsel : ∀ p, cleanupHit s p = true → isEmoji s p = true).
    { intros p. unfold cleanupHit. by intros [? _]%andb_true_iff. }
    destruct (sweep_exact s (cleanupHit s) Hwf Hfree Hsel) as (H1 & H2 & _).
    split; [lia | done].
  - assert (Hk : liveCount (beforeUpdate s) = liveCount s
                 ∧ impostorFree (beforeUpdate s) = impostorFree s
                 ∧ _emojiCount (beforeUpdate s) = _emojiCount s).
    { unfold beforeUpdate. destruct (_bigBall s) as [ref|]; [|done].
      destruct (heap s !! ref) as [ball|] eqn:E; [|done].
      case_match; [|done]. split_and!; [| | done].
      all: apply kinds_population; [|done].
      all: apply allBodies_kinds; [done|]; intros r; simpl.
      all: rewrite lookup_insert; case_decide; [subst; by rewrite E | done]. }
    destruct Hk as (-> & -> & ->). done.
  - assert (Hk : bodyKind <$> allBodies (Engine_update motion s)
                 = bodyKind <$> allBodies s).
    { apply allBodies_kinds; [done|]. intros r. simpl.
      apply foldl_alter_inv, bodyKind_moveBody. }
    destruct (kinds_population s _ Hk eq_refl) as [-> ->]. done.
Qed.

(** X4.  The counter is exact as long as nothing but emoji balls passes
    the emoji test.  From a well-formed state without impostors in which
    the counter equals the number of emoji balls in the world, any
    sequence of [CreateEmojiBall] calls, cleanup passes, [ClearAllEmojis]
    calls, engine updates and tick handlers leaves the counter equal to
    the number of emoji balls in the world, and creates no impostor. *)
Theorem counter_exact_without_impostors (s : EmojiPhysics) (es : list Event) :
  wf s → impostorFree s = true → _emojiCount s = liveCount s →
  forallb populationEvent es = true →
  _emojiCount (run toDataURL s es) = liveCount (run toDataURL s es)
  ∧ impostorFree (run toDataURL s es) = true.
Proof.
  unfold run. revert s. induction es as [|e es IH]; intros s Hwf Hfree Hex Hes.
  - done.
  - simpl in Hes. apply andb_true_iff in Hes as [He Hes].
    destruct (step_exact s e Hwf Hfree Hex He) as [Hex' Hfree'].
    simpl. apply IH; [by apply wf_step | done..].
Qed.

End Exactness.

(** ** The texture cache over a run *)

Section CacheRun.

Variable toDataURL : Canvas → string.

Lemma getEmojiTexture_cache_ok emoji s :
  cache_ok toDataURL s → cache_ok toDataURL (getEmojiTexture toDataURL emoji s).2.
Proof.
  intros (Hnd & Hdom & Htex & Hcan & Hnone). unfold getEmojiTexture.
  destruct (_emojiMap s !! emoji) as [t|] eqn:E; [done|]. simpl.
  assert (Hc : (match _sharedCanvas s with
                | Some c => c
                | None => mkCanvas 32 32 "28px sans-serif" "center" "middle" []
                end) = mkCanvas 32 32 "28px sans-serif" "center" "middle"
                         (match _sharedCanvas s with Some c => drawn c | None => [] end)).
  { destruct (_sharedCanvas s) as [c|] eqn:Ec; [|done].
    destruct (Hcan c eq_refl) as (e & -> & _). done. }
  rewrite Hc. simpl. fold (glyphCanvas emoji).
  assert (Hnew : emoji ∉ rasterized s).
  { rewrite Hdom, E. by intros [? ?]. }
  split_and!; simpl.
  - apply NoDup_app. split_and!; [done | | apply NoDup_singleton].
    intros e He ->%list_elem_of_singleton. done.
  - intros e. rewrite elem_of_app, list_elem_of_singleton, lookup_insert.
    case_decide as Hd; [subst; split; eauto|].
    rewrite Hdom. split; [intros [? | ?]; [done | congruence] | tauto].
  - intros e tx. rewrite lookup_insert. case_decide as Hd; [subst; congruence|].
    apply Htex.
  - intros c [= <-]. exists emoji. split; [done|]. by rewrite last_snoc.
  - done.
Qed.

Lemma sweep_cache sel s ps :
  rasterized (sweep sel s ps) = rasterized s
  ∧ _emojiMap (sweep sel s ps) = _emojiMap s
  ∧ _sharedCanvas (sweep sel s ps) = _sharedCanvas s.
Proof.
  unfold sweep. revert s. induction ps as [|p ps IH]; intros s; simpl; [done|].
  destruct (IH (if sel s p
                then set__emojiCount (_emojiCount s - 1) (World_remove p s)
                else s)) as (-> & -> & ->).
  by destruct (sel s p).
Qed.

Lemma cache_ok_frame s s' :
  rasterized s' = rasterized s → _emojiMap s' = _emojiMap s →
  _sharedCanvas s' = _sharedCanvas s →
  cache_ok toDataURL s → cache_ok toDataURL s'.
Proof. unfold cache_ok. by intros -> -> ->. Qed.

Lemma step_cache_ok s ev : cache_ok toDataURL s → cache_ok toDataURL (step toDataURL s ev).
Proof.
  intros H. destruct ev; unfold step.
  - unfold CreateEmojiBall. destruct (Z.leb MAX_EMOJIS (_emojiCount s)).
    + by apply (cache_ok_frame s).
    + pose proof (getEmojiTexture_cache_ok emoji s H) as H1.
      destruct (getEmojiTexture toDataURL emoji s) as [tex s1]. simpl in *.
      by apply (cache_ok_frame s1).
  - rewrite ClearAllEmojis_sweep.
    destruct (sweep_cache isEmoji s (allBodies s ≫= parts)) as (? & ? & ?).
    by apply (cache_ok_frame s).
  - destruct (Init_frame rnd s) as (_ & ? & ? & ? & _). by apply (cache_ok_frame s).
  - unfold set_Dimensions.
    destruct (Init_frame rnd (set_RenderTop t (set_RenderHeight h (set_RenderWidth w s))))
      as (_ & ? & ? & ? & _).
    by apply (cache_ok_frame s).
  - rewrite afterRender_sweep.
    destruct (sweep_cache cleanupHit s (allBodies s ≫= parts)) as (? & ? & ?).
    by apply (cache_ok_frame s).
  - apply (cache_ok_frame s); [| | | exact H];
      unfold beforeUpdate; repeat case_match; done.
  - by apply (cache_ok_frame s).
  - apply (cache_ok_frame s); [| | | exact H]; unfold img_onload; by case_match.
  - apply (cache_ok_frame s); [| | | exact H]; unfold img_onerror; by case_match.
Qed.

Lemma run_cache_ok es s : cache_ok toDataURL s → cache_ok toDataURL (run toDataURL s es).
Proof.
  unfold run. revert s. induction es as [|ev es IH]; intros s H; simpl; [done|].
  by apply IH, step_cache_ok.
Qed.

Lemma construct_cache_ok t w h rnd : cache_ok toDataURL (construct t w h rnd).
Proof.
  unfold construct. destruct (Init_frame rnd (fresh t w h)) as (_ & ? & ? & ? & _).
  apply (cache_ok_frame (fresh t w h)); [done..|].
  split_and!; simpl; try done.
  - constructor.
  - intros e. rewrite lookup_empty, elem_of_nil. split; [done | by intros [? ?]].
Qed.

(** X5.  Over the whole life of the object every symbol is drawn on the
    canvas at most once, and the symbols drawn are exactly the symbols in
    the cache: the trace of [fillText] calls has no duplicates and lists
    the keys of [_emojiMap]. *)
Theorem rasterized_once (t w h rnd : Q) (es : list Event) :
  let s := run toDataURL (construct t w h rnd) es in
  NoDup (rasterized s) ∧ ∀ e, e ∈ rasterized s ↔ is_Some (_emojiMap s !! e).
Proof.
  intros s. destruct (run_cache_ok es _ (construct_cache_ok t w h rnd)) as (? & ? & _).
  done.
Qed.

(** X6.  The texture of a symbol does not depend on what was drawn before
    it: the canvas is cleared for every drawing, so in every reachable
    state each cached texture is the data URL of the 32 x 32 canvas with
    that symbol alone at its centre, and the shared canvas, once created,
    holds the symbol drawn last. *)
Theorem texture_of_clean_canvas (t w h rnd : Q) (es : list Event) :
  let s := run toDataURL (construct t w h rnd) es in
  (∀ e tx, _emojiMap s !! e = Some tx → tx = toDataURL (glyphCanvas e))
  ∧ (∀ c, _sharedCanvas s = Some c →
          ∃ e, c = glyphCanvas e ∧ last (rasterized s) = Some e).
Proof.
  intros s. destruct (run_cache_ok es _ (construct_cache_ok t w h rnd))
    as (_ & _ & ? & ? & _).
  done.
Qed.

End CacheRun.

(** ** A spawned ball *)

Section Spawned.

Variable toDataURL : Canvas → string.

(** X7.  An accepted [CreateEmojiBall] call returns the new ball, which is
    the last body of the world: a non-static circle of radius 10 at the
    top edge ([y = 0]), within 2% of the width around the centre, carrying
    the cached texture of its symbol.  It passes the emoji test and lies
    within the bounds, so a cleanup pass leaves it in the world until the
    engine has moved it out. *)
Theorem spawned_ball (emoji : string) (rnd : Q) (s : EmojiPhysics) :
  wf s → (_emojiCount s < MAX_EMOJIS)%Z →
  (0 <= rnd)%Q → (rnd < 1)%Q → (0 <= RenderWidth s)%Q → (0 <= RenderHeight s)%Q →
  let r := CreateEmojiBall toDataURL emoji rnd s in
  ∃ ref ball,
    r.1 = Some ref ∧ heap r.2 !! ref = Some ball
    ∧ world_bodies r.2 = world_bodies s ++ [ref]
    ∧ label (core ball) = "Circle Body" ∧ isStatic (core ball) = false
    ∧ circleRadius (core ball) = 10%Q ∧ subparts ball = []
    ∧ vy (position (core ball)) = 0%Q
    ∧ (RenderWidth s / 2 - RenderWidth s / 50 <= vx (position (core ball)))%Q
    ∧ (vx (position (core ball)) <= RenderWidth s / 2 + RenderWidth s / 50)%Q
    ∧ Some (texture (core ball)) = Some (_emojiMap r.2 !! emoji)
    ∧ isEmoji r.2 (core ball) = true
    ∧ outOfBounds r.2 (core ball) = false
    ∧ ref ∈ world_bodies (afterRender r.2).
Proof.
  intros Hwf Hc H0 H1 HW HH r.
  destruct (CreateEmojiBall_spawned toDataURL emoji rnd s (wf_world_below _ Hwf) Hc)
    as (Hret & Ha & Hh & Hw & _ & _ & Hbig & Hmap).
  fold r in Hret, Ha, Hh, Hw, Hbig, Hmap.
  set (ball := Bodies_circle _ _ _ _ _ _ _) in *.
  assert (HWr : RenderWidth r.2 = RenderWidth s ∧ RenderHeight r.2 = RenderHeight s).
  { unfold r, CreateEmojiBall.
    destruct (Z.leb_spec MAX_EMOJIS (_emojiCount s)); [lia|].
    destruct (getEmojiTexture_frame toDataURL emoji s) as (_ & _ & _ & _ & _ & ? & ? & _).
    by destruct (getEmojiTexture toDataURL emoji s). }
  destruct HWr as [HWr HHr].
  assert (Hx : (RenderWidth s / 2 - RenderWidth s / 50 <= vx (position (core ball)))%Q
               ∧ (vx (position (core ball)) <= RenderWidth s / 2 + RenderWidth s / 50)%Q).
  { simpl.
    assert (Ha1 : (0 <= rnd * RenderWidth s)%Q) by (by apply Qmult_le_0_compat).
    assert (Hb1 : (rnd * RenderWidth s <= 1 * RenderWidth s)%Q).
    { apply Qmult_le_compat_r; [by apply Qlt_le_weak | done]. }
    unfold Qdiv. change (/ 2)%Q with (1 # 2)%Q. change (/ 50)%Q with (1 # 50)%Q.
    split; Lqa.lra. }
  destruct Hx as [Hx1 Hx2].
  assert (Hbigne : nextId s ≠ _bigBallId s).
  { pose proof (hk_big s (wf_heap s Hwf)). lia. }
  assert (He : isEmoji r.2 (core ball) = true).
  { unfold isEmoji. rewrite Hbig. simpl. by apply negb_true_iff, Nat.eqb_neq. }
  assert (Ho : outOfBounds r.2 (core ball) = false).
  { apply not_true_iff_false. rewrite outOfBounds_iff, HWr, HHr.
    assert (Hy : vy (position (core ball)) = 0%Q) by done. rewrite Hy.
    unfold Qdiv in Hx1, Hx2.
    change (/ 2)%Q with (1 # 2)%Q in Hx1, Hx2. change (/ 50)%Q with (1 # 50)%Q in Hx1, Hx2.
    intros [H | [H | H]]; Lqa.lra. }
  assert (Hl : heap r.2 !! nextId s = Some ball) by (by rewrite Hh, lookup_insert_eq).
  assert (Hin : nextId s ∈ world_bodies r.2).
  { rewrite Hw, elem_of_app, list_elem_of_singleton. by right. }
  exists (nextId s), ball.
  split_and!; try done.
  - by rewrite Hmap.
  - assert (Hwf' : wf r.2) by apply (wf_CreateEmojiBall toDataURL emoji rnd s Hwf).
    apply (afterRender_keeps r.2 (nextId s) ball Hwf' Hin Hl).
    unfold cleanupHit. by rewrite He, Ho.
Qed.

End Spawned.

(** ** The pendulum and its image *)

Lemma hits_pos sel0 (ps : list Part) p :
  p ∈ ps → sel0 p = true → (0 < hits sel0 ps)%Z.
Proof.
  intros Hp Hs. unfold hits.
  assert (Hin : p ∈ filter (fun p => sel0 p = true) ps).
  { apply list_elem_of_filter. by split. }
  destruct (filter (fun p => sel0 p = true) ps); [by apply elem_of_nil in Hin|].
  simpl. lia.
Qed.

(** X8.  A second image load demotes the pendulum already in the world.
    When a load completes while the body whose id is [_bigBallId] is in
    the world (two builds were started before the loads), that body stays
    in the world next to the new pendulum but now passes the emoji test:
    the next [ClearAllEmojis] removes it and decrements the counter for
    it. *)
Theorem second_load_demotes_pendulum (k : nat) (len : Q) (s : EmojiPhysics)
    (r : nat) (b : Body) :
  wf s → r = _bigBallId s → r ∈ world_bodies s → heap s !! r = Some b →
  madeBy (core b) = BySwingingBall → circleLike (core b) = true →
  pendingImages s !! k = Some len →
  let s' := img_onload k s in
  length (pendulums s') = S (length (pendulums s))
  ∧ r ∈ world_bodies s' ∧ _bigBallId s' ≠ r
  ∧ isEmoji s' (core b) = true
  ∧ (r ∉ world_bodies (ClearAllEmojis s'))
  ∧ (_emojiCount (ClearAllEmojis s') < _emojiCount s')%Z.
Proof.
  intros Hwf Hr Hin E Hm Hc Hp s'.
  assert (Hwf' : wf s') by (by apply wf_img_onload).
  destruct (img_onload_pendulum k s len (wf_world_below _ Hwf) Hp)
    as (ball & Ha & Hmb & _ & _ & Hbig).
  fold s' in Ha, Hbig.
  assert (Hlt : (r < nextId s)%nat).
  { rewrite Hr. apply (hk_big s (wf_heap s Hwf)). }
  assert (Hid : id (core b) = r).
  { by destruct (hk_body s (wf_heap s Hwf) r b E). }
  assert (Hs' : heap s' !! r = Some b ∧ r ∈ world_bodies s' ∧ _bigBallId s' = nextId s).
  { unfold s', img_onload. rewrite Hp. simpl.
    rewrite lookup_insert_ne by lia. rewrite elem_of_app. auto. }
  destruct Hs' as (E' & Hin' & Hbig').
  assert (He : isEmoji s' (core b) = true).
  { unfold isEmoji. fold (circleLike (core b)). rewrite Hc, Hid, Hbig'. simpl.
    apply negb_true_iff, Nat.eqb_neq. lia. }
  split_and!.
  - unfold pendulums. rewrite Ha, filter_app, length_app.
    rewrite (filter_cons_True _ ball []) by done. simpl. lia.
  - done.
  - rewrite Hbig'. lia.
  - done.
  - rewrite (ClearAllEmojis_keeps s' r b Hwf' Hin' E'). congruence.
  - rewrite ClearAllEmojis_spec. simpl.
    assert (Hpos : (0 < hits (isEmoji s') (allBodies s' ≫= parts))%Z).
    { apply (hits_pos _ _ (core b)); [|done].
      apply list_elem_of_bind. exists b. split; [apply list_elem_of_here|].
      apply list_elem_of_omap. eauto. }
    lia.
Qed.

(** X9.  The pendulum is created straight below the anchor, its centre
    [BIG_BALL_RADIUS] beyond the end of its rope.  After a resize to
    [w] x [h] and the load of the image that resize started, the new body
    is the big ball, sits at [x = w / 2] and
    [y = (h - 20 - 20 / 2 - 50 - 5) + 50], carries the butterfly image,
    and the last constraint of the world ties it to the anchor [(w / 2, 0)]
    with rest length [h - 20 - 20 / 2 - 50 - 5] and stiffness 1. *)
Theorem resize_then_load (t w h rnd : Q) (s : EmojiPhysics) :
  let s1 := set_Dimensions t w h rnd s in
  let s2 := img_onload (length (pendingImages s)) s1 in
  let rope := (h - _bottomBorderOffset - _bottomBorderHeight / 2
               - BIG_BALL_RADIUS - 5)%Q in
  ∃ ball c,
    allBodies s2 = allBodies s1 ++ [ball]
    ∧ world_constraints s2 = world_constraints s1 ++ [c]
    ∧ _bigBall s2 = Some (id (core ball)) ∧ _bigBallId s2 = id (core ball)
    ∧ position (core ball) = mkVector (w / 2)%Q (rope + BIG_BALL_RADIUS)%Q
    ∧ circleRadius (core ball) = BIG_BALL_RADIUS ∧ isStatic (core ball) = false
    ∧ texture (core ball) = Some butterflyUrl
    ∧ pointA c = mkVector (w / 2)%Q 0%Q ∧ bodyB c = id (core ball)
    ∧ clength c = rope ∧ stiffness c = 1%Q
    ∧ pendingImages s2 = pendingImages s.
Proof.
  intros s1 s2 rope.
  set (s0 := set_RenderTop t (set_RenderHeight h (set_RenderWidth w s))).
  assert (Hp : pendingImages s1 = pendingImages s ++ [rope]).
  { apply (Init_pending rnd s0). }
  assert (Hk : pendingImages s1 !! length (pendingImages s) = Some rope).
  { rewrite Hp. by apply list_lookup_middle. }
  assert (Hw : RenderWidth s1 = w).
  { destruct (Init_frame rnd s0) as (_ & _ & _ & _ & _ & _ & _ & Hrw & _).
    exact Hrw. }
  assert (Hb : world_below s1).
  { by destruct (Init_structure rnd s0) as (_ & _ & _ & _ & _ & _ & _ & ? & _). }
  unfold s2. clear s2. clearbody s1. clear s0.
  unfold img_onload. rewrite Hk. simpl. rewrite Hw.
  eexists _, _. split.
  { by apply (add_body_allBodies s1 _ _ (nextId s1)); [| simpl; lia |..]. }
  split_and!; try reflexivity.
  - unfold bigBallAnchorPoint. simpl. by rewrite Hw.
  - rewrite Hp. rewrite delete_middle. by rewrite app_nil_r.
Qed.

(** * The properties at concrete worlds *)

Lemma ClearAllEmojis_clears_witness : liveEmojis (ClearAllEmojis fallenWorld) = [].
Proof.
  assert (Hwf : wf fallenWorld) by apply wf_run, wf_wheelWorld.
  exact (proj1 (ClearAllEmojis_clears fallenWorld Hwf)).
Defined.

Lemma pegsWorld_facts :
  impostorFree pegsWorld = true ∧ _emojiCount pegsWorld = liveCount pegsWorld.
Proof. vm_compute. done. Qed.

Lemma counter_exact_without_impostors_witness :
  let s := run exampleDataURL pegsWorld
             [EvCreateEmojiBall "b" (1 # 3); EvEngine fallen; EvAfterRender;
              EvBeforeUpdate; EvClearAllEmojis; EvCreateEmojiBall "a" (1 # 2)] in
  _emojiCount s = liveCount s.
Proof.
  intros s.
  assert (Hwf : wf pegsWorld) by apply wf_run, wf_construct.
  destruct pegsWorld_facts as [Hi Hc].
  exact (proj1 (counter_exact_without_impostors exampleDataURL pegsWorld
                  [EvCreateEmojiBall "b" (1 # 3); EvEngine fallen; EvAfterRender;
                   EvBeforeUpdate; EvClearAllEmojis; EvCreateEmojiBall "a" (1 # 2)]
                  Hwf Hi Hc eq_refl)).
Defined.

Lemma wheelWorld_facts :
  _emojiCount wheelWorld = 0%Z ∧ RenderWidth wheelWorld = 1000%Q
  ∧ RenderHeight wheelWorld = 600%Q.
Proof. vm_compute. done. Qed.

Lemma spawned_ball_witness :
  ∃ ref ball,
    (CreateEmojiBall exampleDataURL "a" (1 # 2) wheelWorld).1 = Some ref
    ∧ heap (CreateEmojiBall exampleDataURL "a" (1 # 2) wheelWorld).2 !! ref = Some ball
    ∧ circleRadius (core ball) = 10%Q.
Proof.
  destruct wheelWorld_facts as (Hc & Hw & Hh).
  assert (H1 : (_emojiCount wheelWorld < MAX_EMOJIS)%Z).
  { rewrite Hc. unfold MAX_EMOJIS. lia. }
  assert (H2 : (0 <= 1 # 2)%Q) by (vm_compute; discriminate).
  assert (H3 : (1 # 2 < 1)%Q) by reflexivity.
  assert (H4 : (0 <= RenderWidth wheelWorld)%Q) by (rewrite Hw; vm_compute; discriminate).
  assert (H5 : (0 <= RenderHeight wheelWorld)%Q) by (rewrite Hh; vm_compute; discriminate).
  destruct (spawned_ball exampleDataURL "a" (1 # 2) wheelWorld wf_wheelWorld
              H1 H2 H3 H4 H5) as (ref & ball & Hr & Hb & _ & _ & _ & Hrad & _).
  exists ref, ball. exact (conj Hr (conj Hb Hrad)).
Defined.

Lemma twoLoads_facts :
  _bigBallId twoLoads = 91%nat
  ∧ bool_decide (91%nat ∈ world_bodies twoLoads) = true
  ∧ heap twoLoads !! 91%nat = Some twoLoadsBall
  ∧ pendingImages twoLoads !! 0%nat = Some (1030 # 2)%Q.
Proof. vm_compute. done. Qed.

Lemma second_load_demotes_pendulum_witness :
  length (pendulums (img_onload 0 twoLoads)) = S (length (pendulums twoLoads))
  ∧ (91%nat ∉ world_bodies (ClearAllEmojis (img_onload 0 twoLoads))).
Proof.
  destruct twoLoads_facts as (Hid & Hin & Hb & Hp).
  assert (Hwf : wf twoLoads) by apply wf_run, wf_wheelWorld.
  apply bool_decide_eq_true in Hin.
  destruct (second_load_demotes_pendulum 0 (1030 # 2) twoLoads 91 twoLoadsBall
              Hwf (eq_sym Hid) Hin Hb eq_refl eq_refl Hp)
    as (H1 & _ & _ & _ & H5 & _).
  exact (conj H1 H5).
Defined.


(** * The page: texts and posts *)

Lemma cleanOverflow_loop_over parent l total :
  (parent < total)%N → cleanOverflow_loop parent total l = [].
Proof.
  revert total. induction l as [|c l IH]; intros total Ht; simpl; [done|].
  destruct (N.ltb_spec parent (total + (offsetHeight c + 5))); [|lia].
  apply IH. lia.
Qed.

Lemma cleanOverflow_loop_prefix parent l total :
  (total ≤ parent)%N →
  ∃ n, cleanOverflow_loop parent total l = take n l
       ∧ (total + stackHeight (take n l) ≤ parent)%N
       ∧ ((n < length l)%nat → (parent < total + stackHeight (take (S n) l))%N).
Proof.
  revert total. induction l as [|c l IH]; intros total Ht.
  - exists 0%nat. simpl. split_and!; [done | lia | lia].
  - simpl. destruct (N.ltb_spec parent (total + (offsetHeight c + 5))) as [Hover | Hfit].
    + exists 0%nat. rewrite cleanOverflow_loop_over by done.
      rewrite take_0. simpl. split_and!; [done | lia | intros _; lia].
    + destruct (IH _ Hfit) as (n & E & H1 & H2). exists (S n).
      rewrite E. split_and!; [done | simpl; lia |].
      intros Hn. assert (Hn' : (n < length l)%nat) by lia.
      apply H2 in Hn'. simpl in *. lia.
Qed.

Lemma cleanOverflow_loop_fits parent l total :
  (total + stackHeight l ≤ parent)%N → cleanOverflow_loop parent total l = l.
Proof.
  revert total. induction l as [|c l IH]; intros total Ht; simpl in *; [done|].
  destruct (N.ltb_spec parent (total + (offsetHeight c + 5))); [lia|].
  f_equal. apply IH. lia.
Qed.

(** X10.  [cleanOverflow] keeps the children from the top down to the
    last one that still fits and removes every child below it: what stays
    is the longest prefix of the children whose heights, with 5 pixels of
    margin each, sum to no more than the height of the column.  The column
    then shows no more than fits, and a second call changes nothing. *)
Theorem cleanOverflow_longest_prefix (div : Column) :
  ∃ n, children (cleanOverflow div) = take n (children div)
       ∧ fits (cleanOverflow div)
       ∧ ((n < length (children div))%nat →
          (clientHeight div < stackHeight (take (S n) (children div)))%N)
       ∧ clientHeight (cleanOverflow div) = clientHeight div
       ∧ cleanOverflow (cleanOverflow div) = cleanOverflow div.
Proof.
  destruct (cleanOverflow_loop_prefix (clientHeight div) (children div) 0)
    as (n & E & H1 & H2); [lia|].
  exists n. unfold fits, cleanOverflow. simpl. rewrite E.
  split_and!; [done | lia | intros Hn; apply H2 in Hn; lia | done |].
  f_equal. apply cleanOverflow_loop_fits. lia.
Qed.

Lemma addText_side layoutHeight text p :
  let side := textSide p in
  let textDiv := mkTextDiv text (layoutHeight side text) in
  columnOf side (addText layoutHeight text p)
  = cleanOverflow (mkColumn (clientHeight (columnOf side p))
                            (textDiv :: children (columnOf side p)))
  ∧ columnOf (otherSide side) (addText layoutHeight text p)
    = columnOf (otherSide side) p
  ∧ emojiPhysics (addText layoutHeight text p) = emojiPhysics p
  ∧ emojiPosts (addText layoutHeight text p) = emojiPosts p
  ∧ messageCount (addText layoutHeight text p) = messageCount p
  ∧ dataReceived (addText layoutHeight text p) = dataReceived p
  ∧ emojiMessageCount (addText layoutHeight text p) = emojiMessageCount p
  ∧ screenWidth (addText layoutHeight text p) = screenWidth p.
Proof.
  unfold textSide, addText.
  destruct (Qle_bool 1000 (screenWidth p) && Z.eqb (Z.rem (emojiMessageCount p) 2) 0);
    simpl; done.
Qed.

(** X11.  [addText] writes to one column and leaves the other column
    and the simulation alone.  If the new text with its margin fits the
    column it becomes the first child, followed by the old children from
    the top as far as they still fit; if the new text alone is taller than
    the column, the column ends up empty, the new text included. *)
Theorem addText_column (layoutHeight : Side → list N → N) (text : list N)
    (p : SkeetMoji) :
  let side := textSide p in
  let textDiv := mkTextDiv text (layoutHeight side text) in
  let old := columnOf side p in
  let p' := addText layoutHeight text p in
  columnOf (otherSide side) p' = columnOf (otherSide side) p
  ∧ emojiPhysics p' = emojiPhysics p
  ∧ clientHeight (columnOf side p') = clientHeight old
  ∧ fits (columnOf side p')
  ∧ ((offsetHeight textDiv + 5 ≤ clientHeight old)%N →
     ∃ n, children (columnOf side p') = textDiv :: take n (children old)
          ∧ ((n < length (children old))%nat →
             (clientHeight old < stackHeight (textDiv :: take (S n) (children old)))%N))
  ∧ ((clientHeight old < offsetHeight textDiv + 5)%N →
     children (columnOf side p') = []).
Proof.
  intros side textDiv old p'.
  destruct (addText_side layoutHeight text p) as (Hs & Ho & Hp & _).
  fold side textDiv p' in Hs, Ho, Hp. fold old in Hs.
  split; [exact Ho|]. split; [exact Hp|]. rewrite Hs.
  destruct (cleanOverflow_longest_prefix (mkColumn (clientHeight old) (textDiv :: children old)))
    as (n & E & Hf & Hmax & Hh & _).
  split; [exact Hh|]. split; [exact Hf|]. simpl in *. split.
  - intros Hfit. destruct n as [|n].
    + exfalso. specialize (Hmax ltac:(lia)). rewrite take_0 in Hmax. simpl in Hmax. lia.
    + exists n. split; [exact E|]. intros Hn. apply Hmax. lia.
  - intros Hover. rewrite E. destruct n as [|n]; [done|].
    exfalso. unfold fits in Hf. simpl in Hf. rewrite E in Hf. simpl in Hf. lia.
Qed.

Section PageProperties.

Variable toDataURL : Canvas → string.
Variable isEmojiCodePoint : N → bool.
Variable toLowerCase : list N → list N.
Variable codePointString : N → string.
Variable layoutHeight : Side → list N → N.

Lemma extractEmojis_nil text :
  extractEmojis isEmojiCodePoint codePointString text = []
  ↔ emojiRegex_test isEmojiCodePoint text = false.
Proof.
  unfold extractEmojis, emojiRegex_test. induction text as [|c text IH]; simpl; [done|].
  rewrite filter_cons. case_decide as Hc.
  - rewrite Hc. simpl. split; discriminate.
  - apply not_true_is_false in Hc. rewrite Hc. exact IH.
Qed.

Lemma createBalls_run emojis rnd e :
  createBalls toDataURL emojis rnd e
  = run toDataURL e (spawns (imap (fun i emoji => (emoji, rnd i)) emojis)).
Proof.
  unfold createBalls, run, spawns. by rewrite foldl_fmap.
Qed.

Lemma rem_succ_even c : Z.eqb (Z.rem (c + 1) 2) 0 = Z.odd c.
Proof.
  rewrite Zquot.Zrem_even. change (c + 1)%Z with (Z.succ c). rewrite Z.even_succ.
  destruct (Z.odd c) eqn:Eo; [done|].
  apply Z.eqb_neq. intros Hs. apply Z.sgn_null_iff in Hs.
  assert (c = -1) by lia. subst. discriminate Eo.
Qed.

(** X12.  [processEvent] always stores the two feed counters.  Without a
    commit record it then throws and changes nothing else.  With a record
    it returns, and the simulation has received one [CreateEmojiBall] call
    per emoji code point of the lower-cased text, in order.  A text without
    emoji changes neither the tallies nor the columns; a text with emoji
    adds one to both tallies and puts the original text at the top of one
    column, the right one exactly when the screen is at least 1000 wide
    and the number of emoji messages before this one was odd. *)
Theorem processEvent_post (mc dl : Z) (commit : option BSkyApi_Record)
    (rnd : nat → Q) (p : SkeetMoji) :
  let r := processEvent toDataURL isEmojiCodePoint toLowerCase codePointString
             layoutHeight (mkJetstreamDetail mc dl commit) rnd p in
  messageCount r.2 = mc ∧ dataReceived r.2 = dl ∧ screenWidth r.2 = screenWidth p
  ∧ match commit with
    | None =>
        r.1 = ThrewTypeError
        ∧ emojiPhysics r.2 = emojiPhysics p
        ∧ emojiPosts r.2 = emojiPosts p
        ∧ emojiMessageCount r.2 = emojiMessageCount p
        ∧ elSkeetDivLeft r.2 = elSkeetDivLeft p
        ∧ elSkeetDivRight r.2 = elSkeetDivRight p
    | Some record =>
        let emojis := extractEmojis isEmojiCodePoint codePointString
                        (toLowerCase (Text record)) in
        r.1 = Returned
        ∧ emojiPhysics r.2
          = run toDataURL (emojiPhysics p)
                (spawns (imap (fun i emoji => (emoji, rnd i)) emojis))
        ∧ (emojis = [] →
           emojiPosts r.2 = emojiPosts p
           ∧ emojiMessageCount r.2 = emojiMessageCount p
           ∧ elSkeetDivLeft r.2 = elSkeetDivLeft p
           ∧ elSkeetDivRight r.2 = elSkeetDivRight p)
        ∧ (emojis ≠ [] →
           emojiPosts r.2 = (emojiPosts p + 1)%Z
           ∧ emojiMessageCount r.2 = (emojiMessageCount p + 1)%Z
           ∧ ∃ side,
               (side = RightSide
                ↔ Qle_bool 1000 (screenWidth p) = true
                  ∧ Z.odd (emojiMessageCount p) = true)
               ∧ columnOf (otherSide side) r.2 = columnOf (otherSide side) p
               ∧ columnOf side r.2
                 = cleanOverflow
                     (mkColumn (clientHeight (columnOf side p))
                               (mkTextDiv (Text record) (layoutHeight side (Text record))
                                  :: children (columnOf side p))))
    end.
Proof.
  intros r. unfold processEvent in r. simpl in r.
  destruct commit as [record|]; [|subst r; simpl; done].
  set (lower := toLowerCase (Text record)) in *.
  set (p1 := mkSkeetMoji (emojiPhysics p) (emojiPosts p) mc dl (emojiMessageCount p)
               (screenWidth p) (elSkeetDivLeft p) (elSkeetDivRight p) (pageLog p)) in *.
  set (p2 := match Embed record with Some ty => _ | None => p1 end) in *.
  assert (Hp2 : emojiPhysics p2 = emojiPhysics p ∧ emojiPosts p2 = emojiPosts p
                ∧ messageCount p2 = mc ∧ dataReceived p2 = dl
                ∧ emojiMessageCount p2 = emojiMessageCount p
                ∧ screenWidth p2 = screenWidth p
                ∧ elSkeetDivLeft p2 = elSkeetDivLeft p
                ∧ elSkeetDivRight p2 = elSkeetDivRight p).
  { unfold p2. destruct (Embed record) as [ty|]; [destruct (knownEmbed ty)|]; done. }
  destruct Hp2 as (E1 & E2 & E3 & E4 & E5 & E6 & E7 & E8).
  clearbody p2. clear p1.
  pose proof (extractEmojis_nil lower) as Hnil.
  assert (Hempty : lower = [] →
                   extractEmojis isEmojiCodePoint codePointString lower = []).
  { by intros ->. }
  cbv zeta.
  destruct (negb (bool_decide (lower = [])) && emojiRegex_test isEmojiCodePoint lower)
    eqn:Etest.
  - apply andb_true_iff in Etest as [_ Ht].
    assert (Hne : extractEmojis isEmojiCodePoint codePointString lower ≠ []).
    { intros H0. apply Hnil in H0. congruence. }
    destruct (extractEmojis isEmojiCodePoint codePointString lower) as [|e0 emojis] eqn:Ee;
      [done|].
    simpl in r.
    set (p4 := mkSkeetMoji (emojiPhysics p2) (emojiPosts p2 + 1) (messageCount p2)
                 (dataReceived p2) (emojiMessageCount p2 + 1) (screenWidth p2)
                 (elSkeetDivLeft p2) (elSkeetDivRight p2) (pageLog p2)) in r.
    destruct (addText_side layoutHeight (Text record) p4)
      as (Hs & Ho & A1 & A2 & A3 & A4 & A5 & A6).
    subst r. cbn [fst snd messageCount dataReceived screenWidth emojiPhysics
                  emojiPosts emojiMessageCount].
    rewrite A1, A2, A3, A4, A5, A6. unfold p4 at 1 2 3 4 5 6.
    cbn [fst snd messageCount dataReceived screenWidth emojiPhysics
                  emojiPosts emojiMessageCount].
    rewrite E1, E2, E3, E4, E5, E6.
    assert (Hcol : ∀ side, columnOf side p4 = columnOf side p).
    { intros [|]; simpl; done. }
    split_and!; try done.
    + apply (createBalls_run (e0 :: emojis)).
    + intros _. split_and!; [unfold p4; simpl; congruence ..|].
      exists (textSide p4). split_and!.
      * unfold textSide, p4. simpl. rewrite E5, E6, rem_succ_even.
        destruct (Qle_bool 1000 (screenWidth p)), (Z.odd (emojiMessageCount p));
          simpl; split; try done; intros [? ?]; done.
      * rewrite <- (Hcol (otherSide (textSide p4))), <- Ho.
        by destruct (textSide p4).
      * rewrite <- (Hcol (textSide p4)), <- Hs. by destruct (textSide p4).
  - assert (He : extractEmojis isEmojiCodePoint codePointString lower = []).
    { apply andb_false_iff in Etest as [Hl | Ht].
      - apply negb_false_iff, bool_decide_eq_true in Hl. by apply Hempty.
      - by apply Hnil. }
    subst r. simpl. rewrite He. simpl. split_and!; try done.
Qed.

Lemma processEvent_physics mc dl record rnd p :
  emojiPhysics (processEvent toDataURL isEmojiCodePoint toLowerCase codePointString
                  layoutHeight (mkJetstreamDetail mc dl (Some record)) rnd p).2
  = run toDataURL (emojiPhysics p)
        (spawns (imap (fun i emoji => (emoji, rnd i))
                      (extractEmojis isEmojiCodePoint codePointString
                         (toLowerCase (Text record))))).
Proof.
  unfold processEvent. simpl.
  set (lower := toLowerCase (Text record)).
  set (p2 := match Embed record with Some ty => _ | None => _ end).
  assert (E1 : emojiPhysics p2 = emojiPhysics p).
  { unfold p2. destruct (Embed record) as [ty|]; [destruct (knownEmbed ty)|]; done. }
  clearbody p2.
  pose proof (extractEmojis_nil lower) as Hnil.
  destruct (negb (bool_decide (lower = [])) && emojiRegex_test isEmojiCodePoint lower)
    eqn:Etest.
  - apply andb_true_iff in Etest as [_ Ht].
    assert (Hne : extractEmojis isEmojiCodePoint codePointString lower ≠ []).
    { intros H0. apply Hnil in H0. congruence. }
    destruct (extractEmojis isEmojiCodePoint codePointString lower) as [|e0 emojis] eqn:Ee;
      [done|].
    cbn [length Nat.ltb Nat.leb snd emojiPhysics].
    set (p4 := mkSkeetMoji _ _ _ _ _ _ _ _ _).
    destruct (addText_side layoutHeight (Text record) p4) as (_ & _ & A1 & _).
    rewrite A1. unfold p4. cbn [emojiPhysics]. rewrite E1.
    apply (createBalls_run (e0 :: emojis)).
  - assert (He : extractEmojis isEmojiCodePoint codePointString lower = []).
    { apply andb_false_iff in Etest as [Hl | Ht].
      - apply negb_false_iff, bool_decide_eq_true in Hl. by rewrite Hl.
      - by apply Hnil. }
    rewrite He. simpl. by rewrite E1.
Qed.

(** X13.  A post with [k] emoji code points adds [min k room] balls to
    a well-formed world, where [room] is what the counter leaves below
    [MAX_EMOJIS]; the counter advances by the same amount and the world
    stays well-formed. *)
Theorem processEvent_population (mc dl : Z) (record : BSkyApi_Record)
    (rnd : nat → Q) (p : SkeetMoji) :
  wf (emojiPhysics p) →
  let k := Z.of_nat (length (extractEmojis isEmojiCodePoint codePointString
                               (toLowerCase (Text record)))) in
  let room := Z.max 0 (MAX_EMOJIS - _emojiCount (emojiPhysics p)) in
  let e' := emojiPhysics
              (processEvent toDataURL isEmojiCodePoint toLowerCase codePointString
                 layoutHeight (mkJetstreamDetail mc dl (Some record)) rnd p).2 in
  wf e'
  ∧ liveCount e' = (liveCount (emojiPhysics p) + Z.min k room)%Z
  ∧ _emojiCount e' = (_emojiCount (emojiPhysics p) + Z.min k room)%Z.
Proof.
  intros Hwf k room e'. unfold e'. rewrite processEvent_physics.
  split; [by apply wf_run|].
  pose proof (spawn_many toDataURL
                (imap (fun i emoji => (emoji, rnd i))
                      (extractEmojis isEmojiCodePoint codePointString
                         (toLowerCase (Text record))))
                (emojiPhysics p) (wf_world_below _ Hwf)) as H.
  cbv zeta in H. rewrite length_imap in H. destruct H as (_ & H1 & H2).
  by split.
Qed.

(** X14.  In a well-formed world where only emoji balls pass the emoji
    test and the counter is exact, [clearFeed] leaves no emoji ball and a
    counter of zero, resets the three counters of the page, and keeps the
    tally of emoji posts and the texts of both columns; the next post with
    [k] emoji code points then puts [min k MAX_EMOJIS] balls in the
    world. *)
Theorem clearFeed_restores_capacity (p : SkeetMoji) :
  wf (emojiPhysics p) → impostorFree (emojiPhysics p) = true →
  _emojiCount (emojiPhysics p) = liveCount (emojiPhysics p) →
  let p' := clearFeed p in
  liveCount (emojiPhysics p') = 0%Z ∧ _emojiCount (emojiPhysics p') = 0%Z
  ∧ messageCount p' = 0%Z ∧ dataReceived p' = 0%Z ∧ emojiMessageCount p' = 0%Z
  ∧ emojiPosts p' = emojiPosts p
  ∧ elSkeetDivLeft p' = elSkeetDivLeft p ∧ elSkeetDivRight p' = elSkeetDivRight p
  ∧ ∀ mc dl record rnd,
      liveCount (emojiPhysics
                   (processEvent toDataURL isEmojiCodePoint toLowerCase
                      codePointString layoutHeight
                      (mkJetstreamDetail mc dl (Some record)) rnd p').2)
      = Z.min (Z.of_nat (length (extractEmojis isEmojiCodePoint codePointString
                                   (toLowerCase (Text record)))))
              MAX_EMOJIS.
Proof.
  intros Hwf Hfree Hex p'.
  assert (Hl : liveCount (emojiPhysics p') = 0%Z).
  { unfold p', clearFeed, liveCount. simpl. by rewrite ClearAllEmojis_no_emoji. }
  assert (Hc : _emojiCount (emojiPhysics p') = 0%Z).
  { rewrite <- Hl.
    apply (step_exact toDataURL (emojiPhysics p) EvClearAllEmojis Hwf Hfree Hex eq_refl). }
  split_and!; try done.
  intros mc dl record rnd. rewrite processEvent_physics.
  pose proof (spawn_many toDataURL
                (imap (fun i emoji => (emoji, rnd i))
                      (extractEmojis isEmojiCodePoint codePointString
                         (toLowerCase (Text record))))
                (emojiPhysics p')
                (wf_world_below _ (wf_ClearAllEmojis _ Hwf))) as H.
  cbv zeta in H. rewrite length_imap in H. destruct H as (_ & H1 & _).
  rewrite H1, Hl, Hc. unfold MAX_EMOJIS. lia.
Qed.

End PageProperties.

Lemma processEvent_population_witness :
  wf (emojiPhysics
        (processEvent exampleDataURL exampleIsEmoji exampleLower exampleString
           exampleHeight (mkJetstreamDetail 2 20 (Some examplePost))
           (fun _ => 1 # 2) pegsPage).2).
Proof.
  assert (Hwf : wf (emojiPhysics pegsPage)) by apply wf_run, wf_construct.
  exact (proj1 (processEvent_population exampleDataURL exampleIsEmoji exampleLower
                  exampleString exampleHeight 2 20 examplePost (fun _ => 1 # 2)
                  pegsPage Hwf)).
Defined.

Lemma clearFeed_restores_capacity_witness :
  liveCount (emojiPhysics (clearFeed pegsPage)) = 0%Z.
Proof.
  assert (Hwf : wf (emojiPhysics pegsPage)) by apply wf_run, wf_construct.
  destruct pegsWorld_facts as [Hi Hc].
  exact (proj1 (clearFeed_restores_capacity exampleDataURL exampleIsEmoji exampleLower
                  exampleString exampleHeight pegsPage Hwf Hi Hc)).
Defined.

